(** * swag: the order-preserving YAML/JSON document model

    A shallow embedding of [yaml.go] (package [swag]): the walk of a
    [yaml.Node] tree into a [JSONMapSlice], the JSON encoding and decoding
    of a [JSONMapSlice], the reverse conversion [json2yaml], the key
    normalisation of [transformData] and the document processors.

    Go's [(T, error)] results are values of [result]; a run-time panic
    (index out of range, nil dereference) is the third outcome [Panic].
    Interface values ([interface{}], [any]) are values of the type [any],
    one constructor per dynamic type the code distinguishes.  The variadic
    [hooks] arguments are never read by the source (they are marked TODO
    there) and are left out.

    The loaders of [yaml.go] ([YAMLMatcher], [YAMLData], [YAMLDoc],
    [YAMLToJSON]) and the string helpers of [util.go] come after the
    document model. *)

From Stdlib Require Import ZArith List String Ascii Bool Lia.
From Stdlib Require Import Sorting.Sorted Sorting.Permutation.
From Stdlib Require Import Floats.SpecFloat.
From Stdlib Require Import DecimalString.
From Stdlib Require DecimalPos.
Import ListNotations.

Set Warnings "-register-all".

Open Scope string_scope.
Open Scope list_scope.
Open Scope Z_scope.

(** ** Errors and results *)

(** [fmt.Errorf] keeps the format, the printed arguments and the errors it
    wraps with [%w]; [ErrYAML] is the package's sentinel; [LibError] stands
    for an error made by a library ([strconv], [yaml], [jlexer],
    [encoding/json]). *)
Inductive error : Type :=
| ErrYAML
| LibError (msg : string)
| Errorf (format : string) (args : list string) (wrapped : list error).

Inductive result (A : Type) : Type :=
| Ok (a : A)
| Err (e : error)
| Panic.
Arguments Ok {A} a.
Arguments Err {A} e.
Arguments Panic {A}.

Definition is_Ok {A} (r : result A) : bool :=
  match r with Ok _ => true | _ => false end.

Definition is_Err {A} (r : result A) : bool :=
  match r with Err _ => true | _ => false end.

(** [float64] values are IEEE-754 binary64 numbers. *)
Definition float64 : Type := spec_float.

(** ** The [yaml] package's node type *)

Module yaml.

(** [Kind] is a [uint32]; the constants are [1 << iota]. *)
Definition Kind : Type := Z.
Definition DocumentNode : Kind := 1.
Definition SequenceNode : Kind := 2.
Definition MappingNode : Kind := 4.
Definition ScalarNode : Kind := 8.
Definition AliasNode : Kind := 16.

(** The fields of [yaml.Node] the package reads or writes.  [Content] is
    the flat child list ([key, value, key, value, ...] under a mapping);
    [Alias] is the pointer an alias node follows, [None] when nil. *)
Inductive Node : Type :=
  mkNode { Kind_ : Kind;
           Tag : string;
           Value : string;
           Content : list Node;
           Alias : option Node }.

(** The zero value [yaml.Node{}]. *)
Definition zero : Node := mkNode 0 "" "" [] None.

End yaml.

Abbreviation Node := yaml.Node.

(** ** [strconv] *)

Definition is_digit (c : ascii) : bool :=
  let n := Z.of_nat (nat_of_ascii c) in (48 <=? n) && (n <=? 57).

Definition digit_value (c : ascii) : Z := Z.of_nat (nat_of_ascii c) - 48.

Fixpoint digits_value (s : string) (acc : Z) : option Z :=
  match s with
  | EmptyString => Some acc
  | String c r =>
      if is_digit c then digits_value r (10 * acc + digit_value c) else None
  end.

Definition ErrSyntax : error := LibError "invalid syntax".
Definition ErrRange : error := LibError "value out of range".

(** [strconv.ParseUint(s, 10, 64)]. *)
Definition ParseUint (s : string) : result Z :=
  match s with
  | EmptyString => Err ErrSyntax
  | _ =>
      match digits_value s 0 with
      | None => Err ErrSyntax
      | Some v => if v <? 2 ^ 64 then Ok v else Err ErrRange
      end
  end.

(** [strconv.ParseInt(s, 10, 64)]: an optional sign, then decimal digits,
    then the range check against [-2^63 .. 2^63-1]. *)
Definition ParseInt (s : string) : result Z :=
  match s with
  | EmptyString => Err ErrSyntax
  | String c r =>
      let neg := Ascii.eqb c "-" in
      let s' := if Ascii.eqb c "+" || neg then r else s in
      match ParseUint s' with
      | Ok un =>
          if negb neg && (2 ^ 63 <=? un) then Err ErrRange
          else if neg && (2 ^ 63 <? un) then Err ErrRange
          else Ok (if neg then - un else un)
      | Err e => Err e
      | Panic => Panic
      end
  end.

(** [strconv.ParseBool]. *)
Definition ParseBool (s : string) : result bool :=
  if existsb (String.eqb s) ["1"; "t"; "T"; "TRUE"; "true"; "True"] then Ok true
  else if existsb (String.eqb s) ["0"; "f"; "F"; "FALSE"; "false"; "False"]
       then Ok false
       else Err ErrSyntax.

(** [strconv.FormatInt(z, 10)] and [strconv.FormatUint(z, 10)]. *)
Definition FormatInt (z : Z) : string := NilZero.string_of_int (Z.to_int z).
Definition FormatUint (z : Z) : string := NilZero.string_of_int (Z.to_int z).

(** [strconv.FormatBool]. *)
Definition FormatBool (b : bool) : string := if b then "true" else "false".

(** ** Interface values *)

Inductive intKind : Type := Int | Int8 | Int16 | Int32 | Int64.
(** [uintptr], which the source lists nowhere, is one of the other types
    ([AOther] below). *)
Inductive uintKind : Type := Uint | Uint8 | Uint16 | Uint32 | Uint64.

(** The types whose nil value can sit inside an interface. *)
Inductive nilable : Type :=
| TJSONMapSlice          (* JSONMapSlice(nil) *)
| TMap                   (* map[string]interface{}(nil) *)
| TGenMap                (* map[interface{}]interface{}(nil) *)
| TSlice                 (* []interface{}(nil) *)
| TNodePtr               (* a nil pointer to yaml.Node *)
| TOtherNilable (name : string). (* another pointer, map, slice or chan *)

(** A [JSONMapItem] is a struct [{Key string; Value interface{}}] and a
    [JSONMapSlice] is a slice of them.  A Go map is listed in the order its
    [range] loop visits it, its keys pairwise distinct. *)
Inductive any : Type :=
| Nil                                      (* the nil interface *)
| AString (s : string)
| ABool (b : bool)
| AInt (k : intKind) (z : Z)
| AUint (k : uintKind) (z : Z)
| AFloat64 (f : float64)
| AJSONMapSlice (s : list JSONMapItem)     (* a non-nil JSONMapSlice *)
| AMap (m : list (string * any))           (* map[string]interface{} *)
| AGenMap (m : list (any * any))           (* map[interface{}]interface{} *)
| ASlice (l : list any)                    (* []interface{} *)
| ANilOf (t : nilable)                     (* a typed nil *)
| ANode (n : Node)                         (* yaml.Node *)
| ANodePtr (n : Node)                      (* pointer to yaml.Node, not nil *)
| AInterfacePtr (v : any)                  (* pointer to interface{}, not nil *)
| AJSONSliceItem (v : any)                 (* JSONSliceItem{Value: v} *)
| AOther (typeName : string)               (* any other dynamic type *)
with JSONMapItem : Type :=
| mkItem (Key : string) (Value : any).

Definition Key (i : JSONMapItem) : string := let 'mkItem k _ := i in k.
Definition Value (i : JSONMapItem) : any := let 'mkItem _ v := i in v.

Definition JSONMapSlice : Type := list JSONMapItem.

(** ** Scalar tags *)

Definition yamlStringScalar := "tag:yaml.org,2002:str".
Definition yamlIntScalar := "tag:yaml.org,2002:int".
Definition yamlBoolScalar := "tag:yaml.org,2002:bool".
Definition yamlFloatScalar := "tag:yaml.org,2002:float".
Definition yamlTimestamp := "tag:yaml.org,2002:timestamp".
Definition yamlNull := "tag:yaml.org,2002:null".

(** ** JSON text, [jwriter.Writer] and [jlexer.Lexer]

    The easyjson writer and lexer are modelled on the lexemes of the JSON
    text rather than on its bytes.  A string lexeme stands for a quoted,
    escaped string (strings are valid UTF-8 text, which the writer's
    escaping and the lexer's unescaping carry through unchanged).  A number
    lexeme stands for the decimal text of a number: [NumInt z] for the
    digits [strconv] prints for the integer [z], [NumFloat f] for the text
    [encoding/json] prints for the finite float [f], the shortest one that
    parses back to [f]. *)
Inductive number : Type :=
| NumInt (z : Z)
| NumFloat (f : float64).

Inductive lexeme : Type :=
| LDelim (c : ascii)       (* one of { } [ ] *)
| LSep (c : ascii)         (* a colon or a comma *)
| LString (s : string)
| LNumber (n : number)
| LBool (b : bool)
| LNull.

(** [strconv.ParseFloat] on a number lexeme: the float nearest to an
    integer (ties to even), or the float the text was printed from. *)
Definition parseNumber (n : number) : float64 :=
  match n with
  | NumInt z => binary_normalize 53 1024 z 0 false
  | NumFloat f => f
  end.

(** *** The writer: its buffer and its sticky error *)
Record Writer : Type := mkWriter { Buffer : list lexeme; Error : option error }.

Definition newWriter : Writer := mkWriter [] None.

Definition RawByte (c : ascii) (w : Writer) : Writer :=
  let x := if Ascii.eqb c ":" || Ascii.eqb c "," then LSep c else LDelim c in
  mkWriter (Buffer w ++ [x]) (Error w).

Definition WriteString (s : string) (w : Writer) : Writer :=
  mkWriter (Buffer w ++ [LString s]) (Error w).

(** [Writer.Raw(data, err)]. *)
Definition Raw (r : result (list lexeme)) (w : Writer) : Writer :=
  match Error w with
  | Some _ => w
  | None =>
      match r with
      | Err err => mkWriter (Buffer w) (Some err)
      | Panic => w
      | Ok [] => mkWriter (Buffer w ++ [LNull]) None
      | Ok data => mkWriter (Buffer w ++ data) None
      end
  end.

Definition BuildBytes (w : Writer) : result (list lexeme) :=
  match Error w with
  | Some err => Err err
  | None => Ok (Buffer w)
  end.

(** *** The lexer

    [Data] is the input from the current position on, [tok] the last
    scanned token ([Undef] once consumed; a delimiter token is the only one
    with a non-zero [delimValue]), [wantSep] the separator that must come
    before the next token, [fatalError] the first error met. *)
Inductive token : Type :=
| Undef
| TDelim (c : ascii)
| TString (s : string)
| TNumber (n : number)
| TBool (b : bool)
| TNull.

Record Lexer : Type :=
  mkLexer { Data : list lexeme;
            tok : token;
            firstElement : bool;
            wantSep : option ascii;
            fatalError : option error }.

Definition newLexer (data : list lexeme) : Lexer :=
  mkLexer data Undef false None None.

Definition LexerOk (r : Lexer) : bool :=
  match fatalError r with None => true | Some _ => false end.

(** [errSyntax] and [errInvalidToken] keep the first error. *)
Definition lexError (msg : string) (r : Lexer) : Lexer :=
  match fatalError r with
  | Some _ => r
  | None => mkLexer (Data r) (tok r) (firstElement r) (wantSep r)
                    (Some (LibError msg))
  end.

Definition errSyntax : Lexer -> Lexer := lexError "syntax error".

Definition setTok (t : token) (rest : list lexeme) (r : Lexer) : Lexer :=
  mkLexer rest t (firstElement r) (wantSep r) (fatalError r).

Definition noSepWanted (r : Lexer) : Lexer :=
  match wantSep r with Some _ => errSyntax r | None => r end.

Definition isSep (want : option ascii) (c : ascii) : bool :=
  match want with Some w => Ascii.eqb w c | None => false end.

(** The scanning loop of [FetchToken] over the rest of the input. *)
Fixpoint scan (data : list lexeme) (r : Lexer) : Lexer :=
  match data with
  | [] => mkLexer (Data r) (tok r) (firstElement r) (wantSep r)
                  (Some (LibError "EOF"))
  | LSep c :: data' =>
      if isSep (wantSep r) c
      then scan data' (mkLexer data' (tok r) (firstElement r) None (fatalError r))
      else scan data' (errSyntax r)
  | LString s :: data' => setTok (TString s) data' (noSepWanted r)
  | LNumber n :: data' => setTok (TNumber n) data' (noSepWanted r)
  | LBool b :: data' => setTok (TBool b) data' (noSepWanted r)
  | LNull :: data' => setTok TNull data' (noSepWanted r)
  | LDelim c :: data' =>
      if Ascii.eqb c "{" || Ascii.eqb c "[" then
        let r := noSepWanted r in
        mkLexer data' (TDelim c) true (wantSep r) (fatalError r)
      else if Ascii.eqb c "}" || Ascii.eqb c "]" then
        let r := if negb (firstElement r) && negb (isSep (wantSep r) ",")
                 then errSyntax r else r in
        mkLexer data' (TDelim c) (firstElement r) None (fatalError r)
      else errSyntax r
  end.

Definition FetchToken (r : Lexer) : Lexer :=
  scan (Data r) (mkLexer (Data r) Undef (firstElement r) (wantSep r) (fatalError r)).

(** The opening lines of every reading method: fetch when no token is
    pending and no error has occurred. *)
Definition ensureToken (r : Lexer) : Lexer :=
  match tok r with
  | Undef => if LexerOk r then FetchToken r else r
  | _ => r
  end.

Definition consume (r : Lexer) : Lexer :=
  mkLexer (Data r) Undef (firstElement r) (wantSep r) (fatalError r).

Definition delimValue (r : Lexer) : option ascii :=
  match tok r with TDelim c => Some c | _ => None end.

Definition IsNull (r : Lexer) : bool * Lexer :=
  let r := ensureToken r in
  (LexerOk r && match tok r with TNull => true | _ => false end, r).

Definition Skip (r : Lexer) : Lexer := consume (ensureToken r).

Definition IsDelim (c : ascii) (r : Lexer) : bool * Lexer :=
  let r := ensureToken r in
  (negb (LexerOk r) || isSep (delimValue r) c, r).

Definition Delim (c : ascii) (r : Lexer) : Lexer :=
  let r := ensureToken r in
  if negb (LexerOk r) || negb (isSep (delimValue r) c)
  then lexError "expected delimiter" (consume r)
  else consume r.

Definition UnsafeString (r : Lexer) : string * Lexer :=
  let r := ensureToken r in
  match tok r with
  | TString s => if LexerOk r then (s, consume r) else ("", r)
  | _ => ("", lexError "expected string" r)
  end.

Definition WantColon (r : Lexer) : Lexer :=
  mkLexer (Data r) (tok r) false (Some ":"%char) (fatalError r).

Definition WantComma (r : Lexer) : Lexer :=
  mkLexer (Data r) (tok r) false (Some ","%char) (fatalError r).

(** [Lexer.Interface] on a token that is not an opening delimiter, the only
    tokens the source hands to it: a string, a number read by [Float64], a
    boolean, or null; anything else is a syntax error. *)
Definition Interface (r : Lexer) : any * Lexer :=
  let r := ensureToken r in
  if negb (LexerOk r) then (Nil, r)
  else
    match tok r with
    | TString s => (AString s, consume r)
    | TNumber n => (AFloat64 (parseNumber n), consume r)
    | TBool b => (ABool b, consume r)
    | TNull => (Nil, consume r)
    | _ => (Nil, errSyntax r)
    end.

(** ** Library functions

    The package calls into [gopkg.in/yaml.v3] and [strconv] for work that
    is not its own.  These functions are taken as given:
    - [LongTag] is [Node.LongTag]: the node's tag in long form, resolved
      from the node's text when the node carries no explicit tag;
    - [ParseFloat] is [strconv.ParseFloat(s, 64)];
    - [FormatFloat] is [strconv.FormatFloat(f, 'f', -1, 64)], the shortest
      decimal text that parses back to [f];
    - [yaml_Unmarshal] is [yaml.Unmarshal(data, &document)] on a zero
      [yaml.Node]: the document as the call leaves it, and its error;
    - [yaml_Marshal] is [yaml.Marshal].

    [JSONSliceItem.unmarshalEasyJSONWithHooks] is called by the decoder of
    [JSONMapItem] but is not defined in [yaml.go]; it is taken as given as
    well: the [Value] it leaves in its receiver, and the lexer after it. *)
Class Libraries : Type := {
  LongTag : Node -> string;
  ParseFloat : string -> result float64;
  FormatFloat : float64 -> string;
  yaml_Unmarshal : list Byte.byte -> Node * option error;
  yaml_Marshal : Node -> result (list Byte.byte);
  unmarshalSliceItem : Lexer -> any * Lexer
}.

(** ** The tree walk *)

Section Walk.

Context `{Libraries}.

(** [BytesToYAMLDoc] returns [&document]. *)
Definition BytesToYAMLDoc (data : list Byte.byte) : result any :=
  let '(document, err) := yaml_Unmarshal data in
  match err with
  | Some err => Err err
  | None =>
      if negb (yaml.Kind_ document =? yaml.DocumentNode)
         || negb (Z.of_nat (List.length (yaml.Content document)) =? 1)
         || negb (match yaml.Content document with
                  | c :: _ => yaml.Kind_ c =? yaml.MappingNode
                  | [] => false
                  end)
      then Err (Errorf "only YAML documents that are objects are supported: %w"
                       [] [ErrYAML])
      else Ok (ANodePtr document)
  end.

Definition yamlScalar (node : Node) : result any :=
  let tag := LongTag node in
  if String.eqb tag yamlStringScalar then Ok (AString (yaml.Value node))
  else if String.eqb tag yamlBoolScalar then
    match ParseBool (yaml.Value node) with
    | Ok b => Ok (ABool b)
    | Err err =>
        Err (Errorf "unable to process scalar node. Got %q. Expecting bool content: %w: %w"
                    [yaml.Value node] [err; ErrYAML])
    | Panic => Panic
    end
  else if String.eqb tag yamlIntScalar then
    match ParseInt (yaml.Value node) with
    | Ok i => Ok (AInt Int64 i)
    | Err err =>
        Err (Errorf "unable to process scalar node. Got %q. Expecting integer content: %w: %w"
                    [yaml.Value node] [err; ErrYAML])
    | Panic => Panic
    end
  else if String.eqb tag yamlFloatScalar then
    match ParseFloat (yaml.Value node) with
    | Ok f => Ok (AFloat64 f)
    | Err err =>
        Err (Errorf "unable to process scalar node. Got %q. Expecting float content: %w: %w"
                    [yaml.Value node] [err; ErrYAML])
    | Panic => Panic
    end
  else if String.eqb tag yamlTimestamp then Ok (AString (yaml.Value node))
  else if String.eqb tag yamlNull then Ok Nil
  else Err (Errorf "YAML tag %q is not supported: %w" [tag] [ErrYAML]).

Definition yamlStringScalarC (node : Node) : result string :=
  if negb (yaml.Kind_ node =? yaml.ScalarNode) then
    Err (Errorf "expecting a string scalar but got %q: %w"
                [FormatInt (yaml.Kind_ node)] [ErrYAML])
  else
    let tag := LongTag node in
    if String.eqb tag yamlStringScalar || String.eqb tag yamlIntScalar
       || String.eqb tag yamlFloatScalar
    then Ok (yaml.Value node)
    else Err (Errorf "YAML tag %q is not supported as map key: %w" [tag] [ErrYAML]).

(** The loops of [yamlSequence] and [yamlMapping]; [walk] stands for the
    recursive call of [yamlNode] on a child. *)
Section Loops.

Variable walk : Node -> result any.

Fixpoint sequenceLoop (content : list Node) : result (list any) :=
  match content with
  | [] => Ok []
  | c :: content' =>
      match walk c with
      | Err err =>
          Err (Errorf "unable to decode YAML sequence value: %w: %w" [] [err; ErrYAML])
      | Panic => Panic
      | Ok v =>
          match sequenceLoop content' with
          | Ok s => Ok (v :: s)
          | r => r
          end
      end
  end.

(** The children are taken two by two ([i += 2]): [node.Content[i]] is the
    key and [node.Content[i+1]] the value.  A last child without a partner
    is checked as a key, and then the index [i+1] is out of range. *)
Fixpoint mappingLoop (content : list Node) : result JSONMapSlice :=
  match content with
  | [] => Ok []
  | key :: tl =>
      match yamlStringScalarC key with
      | Err err =>
          Err (Errorf "unable to decode YAML map key: %w: %w" [] [err; ErrYAML])
      | Panic => Panic
      | Ok k =>
          match tl with
          | [] => Panic
          | vn :: content' =>
              match walk vn with
              | Err err =>
                  Err (Errorf "unable to process YAML map value for key %q: %w: %w"
                              [k] [err; ErrYAML])
              | Panic => Panic
              | Ok v =>
                  match mappingLoop content' with
                  | Ok m => Ok (mkItem k v :: m)
                  | r => r
                  end
              end
          end
      end
  end.

End Loops.

Definition unexpectedDocument (content : list Node) : error :=
  Errorf "unexpected YAML Document node content length: %d: %w"
         [FormatInt (Z.of_nat (List.length content))] [ErrYAML].

Definition wrapSlice (r : result (list any)) : result any :=
  match r with Ok s => Ok (ASlice s) | Err e => Err e | Panic => Panic end.

Definition wrapMapSlice (r : result JSONMapSlice) : result any :=
  match r with Ok m => Ok (AJSONMapSlice m) | Err e => Err e | Panic => Panic end.

(** [yamlNode] with the bodies of [yamlDocument], [yamlSequence] and
    [yamlMapping] in place, as the four functions call each other. *)
Fixpoint yamlNode (root : Node) : result any :=
  let k := yaml.Kind_ root in
  if k =? yaml.DocumentNode then
    match yaml.Content root with
    | [child] => yamlNode child
    | content => Err (unexpectedDocument content)
    end
  else if k =? yaml.SequenceNode then
    wrapSlice (sequenceLoop yamlNode (yaml.Content root))
  else if k =? yaml.MappingNode then
    wrapMapSlice (mappingLoop yamlNode (yaml.Content root))
  else if k =? yaml.ScalarNode then yamlScalar root
  else if k =? yaml.AliasNode then
    match yaml.Alias root with
    | Some target => yamlNode target
    | None => Panic
    end
  else Err (Errorf "unsupported YAML node type: %v: %w" [FormatInt k] [ErrYAML]).

Definition yamlDocument (node : Node) : result any :=
  match yaml.Content node with
  | [child] => yamlNode child
  | content => Err (unexpectedDocument content)
  end.

Definition yamlSequence (node : Node) : result any :=
  wrapSlice (sequenceLoop yamlNode (yaml.Content node)).

Definition yamlMapping (node : Node) : result any :=
  wrapMapSlice (mappingLoop yamlNode (yaml.Content node)).

End Walk.

(** ** The reverse converter *)

(** The name [%T] prints for the dynamic type of a value. *)
Definition typeName (v : any) : string :=
  match v with
  | Nil => "<nil>"
  | AString _ => "string"
  | ABool _ => "bool"
  | AInt Int _ => "int"
  | AInt Int8 _ => "int8"
  | AInt Int16 _ => "int16"
  | AInt Int32 _ => "int32"
  | AInt Int64 _ => "int64"
  | AUint Uint _ => "uint"
  | AUint Uint8 _ => "uint8"
  | AUint Uint16 _ => "uint16"
  | AUint Uint32 _ => "uint32"
  | AUint Uint64 _ => "uint64"
  | AFloat64 _ => "float64"
  | AJSONMapSlice _ | ANilOf TJSONMapSlice => "swag.JSONMapSlice"
  | AMap _ | ANilOf TMap => "map[string]interface {}"
  | AGenMap _ | ANilOf TGenMap => "map[interface {}]interface {}"
  | ASlice _ | ANilOf TSlice => "[]interface {}"
  | ANode _ => "yaml.Node"
  | ANodePtr _ | ANilOf TNodePtr => "*yaml.Node"
  | ANilOf (TOtherNilable name) => name
  | AInterfacePtr _ => "*interface {}"
  | AJSONSliceItem _ => "swag.JSONSliceItem"
  | AOther name => name
  end.

(** [isNil]: the nil interface, or a nil pointer, map, slice or channel. *)
Definition isNil (input : any) : bool :=
  match input with
  | Nil => true
  | ANilOf _ => true
  | _ => false
  end.

(** The composite literal [&yaml.Node{Kind: yaml.ScalarNode, Tag: tag,
    Value: value}]. *)
Definition scalarNode (tag value : string) : Node :=
  yaml.mkNode yaml.ScalarNode tag value [] None.

(** [var n yaml.Node; n.Kind = kind] with [n.Content] appended to. *)
Definition collectionNode (kind : yaml.Kind) (content : list Node) : Node :=
  yaml.mkNode kind "" "" content None.

Definition unhandledType (v : any) : error :=
  Errorf "unhandled type: %T: %w" [typeName v] [ErrYAML].

(** [sort.Strings]: ascending, bytewise. *)
Fixpoint insertString (k : string) (l : list string) : list string :=
  match l with
  | [] => [k]
  | x :: l' => if String.leb k x then k :: l else x :: insertString k l'
  end.

Fixpoint sortStrings (l : list string) : list string :=
  match l with
  | [] => []
  | k :: l' => insertString k (sortStrings l')
  end.

(** [val[k]] on a [map[string]interface{}]: the nil interface when the key
    is missing. *)
Fixpoint mapIndex (val : list (string * any)) (k : string) : any :=
  match val with
  | [] => Nil
  | (k', v) :: val' => if String.eqb k k' then v else mapIndex val' k
  end.

Section Reverse.

Context `{Libraries}.

(** The cases of [json2yaml] that return without a recursive call: the
    [isNil] test and the scalar and default cases of the type switch. *)
Definition json2yamlLeaf (item : any) : result Node :=
  if isNil item then Ok (scalarNode "" "null")
  else
    match item with
    | AString val => Ok (scalarNode yamlStringScalar val)
    | AFloat64 val => Ok (scalarNode yamlFloatScalar (FormatFloat val))
    | AInt Int64 val => Ok (scalarNode yamlIntScalar (FormatInt val))
    | AUint Uint64 val => Ok (scalarNode yamlIntScalar (FormatUint val))
    | ABool val => Ok (scalarNode yamlBoolScalar (FormatBool val))
    | _ => Err (unhandledType item)
    end.

(** The three loops of [json2yaml]; [child] is what the loop body calls to
    convert one element. *)
Section ReverseLoops.

Variable child : any -> result Node.

(** [case JSONMapSlice]: the body calls [json2yaml(&val[i].Value)], so
    [child] receives the item's value and stands for that call. *)
Fixpoint mapSliceLoop (val : list JSONMapItem) : result (list Node) :=
  match val with
  | [] => Ok []
  | it :: val' =>
      match child (Value it) with
      | Err err => Err err
      | Panic => Panic
      | Ok childNode =>
          match mapSliceLoop val' with
          | Ok content => Ok (scalarNode yamlStringScalar (Key it) :: childNode :: content)
          | r => r
          end
      end
  end.

(** [child] applied to [val[k]], found by running down the map. *)
Fixpoint childAt (val : list (string * any)) (k : string) : result Node :=
  match val with
  | [] => json2yamlLeaf Nil
  | (k', v) :: val' => if String.eqb k k' then child v else childAt val' k
  end.

(** [case map[string]interface{}]: the loop over the sorted keys. *)
Fixpoint mapLoop (val : list (string * any)) (keys : list string)
  : result (list Node) :=
  match keys with
  | [] => Ok []
  | k :: keys' =>
      match childAt val k with
      | Err err => Err err
      | Panic => Panic
      | Ok childNode =>
          match mapLoop val keys' with
          | Ok content => Ok (scalarNode yamlStringScalar k :: childNode :: content)
          | r => r
          end
      end
  end.

(** [case []interface{}]. *)
Fixpoint sliceLoop (val : list any) : result (list Node) :=
  match val with
  | [] => Ok []
  | v :: val' =>
      match child v with
      | Err err => Err err
      | Panic => Panic
      | Ok childNode =>
          match sliceLoop val' with
          | Ok content => Ok (childNode :: content)
          | r => r
          end
      end
  end.

End ReverseLoops.

Definition wrapNode (kind : yaml.Kind) (r : result (list Node)) : result Node :=
  match r with
  | Ok content => Ok (collectionNode kind content)
  | Err e => Err e
  | Panic => Panic
  end.

(** [json2yaml].  The call in the [JSONMapSlice] case passes the address of
    the item's value, an argument of dynamic type [*interface{}];
    [json2yamlAt true v] is [json2yaml] applied to the address of an
    interface holding [v], [json2yamlAt false v] is [json2yaml] applied to
    [v] itself (lemma [json2yamlAt_address] below). *)
Fixpoint json2yamlAt (address : bool) (item : any) : result Node :=
  if address then json2yamlLeaf (AInterfacePtr item)
  else
    match item with
    | AJSONMapSlice val =>
        wrapNode yaml.MappingNode (mapSliceLoop (json2yamlAt true) val)
    | AMap val =>
        wrapNode yaml.MappingNode
                 (mapLoop (json2yamlAt false) val (sortStrings (map fst val)))
    | ASlice val =>
        wrapNode yaml.SequenceNode (sliceLoop (json2yamlAt false) val)
    | _ => json2yamlLeaf item
    end.

Definition json2yaml (item : any) : result Node := json2yamlAt false item.

(** [JSONMapSlice.MarshalYAML]: the loop that builds [nodes], then the
    document node handed to [yaml.Marshal]. *)
Fixpoint marshalYAMLLoop (s : JSONMapSlice) : result (list Node) :=
  match s with
  | [] => Ok []
  | item :: s' =>
      match json2yaml (Value item) with
      | Err err => Err err
      | Panic => Panic
      | Ok nn =>
          match marshalYAMLLoop s' with
          | Ok nodes => Ok (scalarNode yamlStringScalar (Key item) :: nn :: nodes)
          | r => r
          end
      end
  end.

Definition marshalYAMLDocument (s : JSONMapSlice) : result Node :=
  match marshalYAMLLoop s with
  | Ok nodes =>
      Ok (collectionNode yaml.DocumentNode [collectionNode yaml.MappingNode nodes])
  | Err e => Err e
  | Panic => Panic
  end.

Definition MarshalYAML (s : JSONMapSlice) : result (list Byte.byte) :=
  match marshalYAMLDocument s with
  | Ok n => yaml_Marshal n
  | Err e => Err e
  | Panic => Panic
  end.

End Reverse.

(** ** The key normaliser *)

(** The closure [format] of [transformData].  The conversions to [uint64]
    and [int64] widen, so the value printed is the key's own. *)
Definition format (t : any) : result string :=
  match t with
  | AString k => Ok k
  | AUint Uint k => Ok (FormatUint k)
  | AUint Uint8 k => Ok (FormatUint k)
  | AUint Uint16 k => Ok (FormatUint k)
  | AUint Uint32 k => Ok (FormatUint k)
  | AUint Uint64 k => Ok (FormatUint k)
  | AInt Int k => Ok (FormatInt k)
  | AInt Int8 k => Ok (FormatInt k)
  | AInt Int16 k => Ok (FormatInt k)
  | AInt Int32 k => Ok (FormatInt k)
  | AInt Int64 k => Ok (FormatInt k)
  | k => Err (Errorf "unexpected map key type, got: %T: %w" [typeName k] [ErrYAML])
  end.

Section Normalise.

Context `{Libraries}.

Section NormaliseLoops.

Variable transform : any -> result any.

(** [case map[interface{}]interface{}]: the [range] loop, the map listed
    in the order the loop visits it. *)
Fixpoint genMapLoop (m : list (any * any)) : result JSONMapSlice :=
  match m with
  | [] => Ok []
  | (ke, va) :: m' =>
      match format ke with
      | Err err => Err err
      | Panic => Panic
      | Ok key =>
          match transform va with
          | Err ert => Err ert
          | Panic => Panic
          | Ok v =>
              match genMapLoop m' with
              | Ok o => Ok (mkItem key v :: o)
              | r => r
              end
          end
      end
  end.

(** [case []interface{}]. *)
Fixpoint genSliceLoop (l : list any) : result (list any) :=
  match l with
  | [] => Ok []
  | x :: l' =>
      match transform x with
      | Err err => Err err
      | Panic => Panic
      | Ok v =>
          match genSliceLoop l' with
          | Ok o => Ok (v :: o)
          | r => r
          end
      end
  end.

End NormaliseLoops.

(** [transformData].  A nil map or slice has no element and yields the
    empty result made by [make]; a nil [*yaml.Node] is dereferenced by
    [yamlNode]. *)
Fixpoint transformData (input : any) : result any :=
  match input with
  | ANode n => yamlNode n
  | ANodePtr n => yamlNode n
  | ANilOf TNodePtr => Panic
  | AGenMap m => wrapMapSlice (genMapLoop transformData m)
  | ANilOf TGenMap => Ok (AJSONMapSlice [])
  | ASlice l => wrapSlice (genSliceLoop transformData l)
  | ANilOf TSlice => Ok (ASlice [])
  | _ => Ok input
  end.

End Normalise.

(** ** The transform pipeline *)

Section Pipeline.

(** A processor is a Go closure [func(any) (any, error)]: besides its two
    results it may read and change whatever it closed over, a state of
    type [St]. *)
Variable St : Type.

Definition DocProcessor : Type := any -> St -> (any * option error) * St.

Record docOptions : Type := mkDocOptions { processors : list DocProcessor }.

(** A [DocOption] updates the options it is handed a pointer to. *)
Definition DocOption : Type := docOptions -> docOptions.

Definition WithDocProcessor (processor : DocProcessor) : DocOption :=
  fun o => mkDocOptions (processors o ++ [processor]).

(** The function literal that [WithXOrderProcessor] registers; it closes
    over nothing. *)
Definition xOrderProcessor : DocProcessor :=
  fun doc st =>
    (match doc with
     | ANode _ => (Nil, None)
     | ANodePtr _ | ANilOf TNodePtr => (Nil, None)
     | AJSONMapSlice _ | ANilOf TJSONMapSlice => (Nil, None)
     | _ =>
         (Nil,
          Some (Errorf "XOrder processor only support yamlv3.Node and swag.JSONMapSlice input documents, got: %T"
                       [typeName doc] []))
     end, st).

Definition WithXOrderProcessor (enabled : bool) : DocOption :=
  if negb enabled then (fun o => o)
  else WithDocProcessor xOrderProcessor.

Definition docOptionsWithDefaults (opts : list DocOption) : docOptions :=
  fold_left (fun o apply => apply o) opts (mkDocOptions []).

Definition HasTransforms (o : docOptions) : bool :=
  (0 <? Z.of_nat (List.length (processors o))).

(** The loop of [ApplyTransforms]. *)
Fixpoint applyLoop (ps : list DocProcessor) (doc : any) (st : St)
  : (any * option error) * St :=
  match ps with
  | [] => ((doc, None), st)
  | process :: ps' =>
      let '((doc', err), st') := process doc st in
      match err with
      | Some e => ((Nil, Some e), st')
      | None => applyLoop ps' doc' st'
      end
  end.

Definition ApplyTransforms (o : docOptions) (inputDoc : any) (st : St)
  : (any * option error) * St :=
  applyLoop (processors o) inputDoc st.

End Pipeline.

Arguments processors {St} _.
Arguments mkDocOptions {St} _.
Arguments WithDocProcessor {St} _ _.
Arguments xOrderProcessor {St} _ _.
Arguments WithXOrderProcessor {St} _ _.
Arguments docOptionsWithDefaults {St} _.
Arguments ApplyTransforms {St} _ _ _.
Arguments applyLoop {St} _ _ _.

(** ** JSON encoding and decoding of the ordered document *)

Section JSON.

Context `{Libraries}.

(** [JSONMapItem.MarshalEasyJSON] and the loop of
    [JSONMapSlice.MarshalEasyJSON]; [write] stands for [WriteJSON]. *)
Section Marshal.

Variable write : any -> result (list lexeme).

Definition itemMarshalEasyJSON (s : JSONMapItem) (w : Writer) : Writer :=
  let w := WriteString (Key s) w in
  let w := RawByte ":" w in
  Raw (write (Value s)) w.

(** [for i := 0; i < ln; i++]: a comma after every item but the last. *)
Fixpoint marshalItems (s : list JSONMapItem) (w : Writer) : Writer :=
  match s with
  | [] => w
  | it :: s' =>
      let w := itemMarshalEasyJSON it w in
      let w := match s' with [] => w | _ :: _ => RawByte "," w end in
      marshalItems s' w
  end.

Definition mapSliceMarshalEasyJSON (s : list JSONMapItem) (w : Writer) : Writer :=
  let w := RawByte "{" w in
  let w := marshalItems s w in
  RawByte "}" w.

(** The elements of an array written by [encoding/json]. *)
Fixpoint marshalElements (l : list any) (w : Writer) : Writer :=
  match l with
  | [] => w
  | v :: l' =>
      let w := Raw (write v) w in
      let w := match l' with [] => w | _ :: _ => RawByte "," w end in
      marshalElements l' w
  end.

End Marshal.

Definition isFinite (f : float64) : bool :=
  match f with
  | S754_zero _ | S754_finite _ _ _ => true
  | _ => false
  end.

(** Modelled from the spec: [WriteJSON], which the encoder calls on every
    item's value and which is not defined in [yaml.go].  Section 4.3 of
    the specification: entries are written in stored order inside an
    object delimiter pair; nested Ordered Document Models and lists
    recurse.  A value that writes itself (a [JSONMapSlice], nil or not) does
    so with a fresh writer; the other values of the Ordered Document Model
    (list, string, integer, float, boolean, null) go through
    [encoding/json], which refuses a float that is not finite.  Values of
    other dynamic types are outside this model and are refused. *)
Fixpoint WriteJSON (data : any) : result (list lexeme) :=
  match data with
  | AJSONMapSlice s => BuildBytes (mapSliceMarshalEasyJSON WriteJSON s newWriter)
  | ANilOf TJSONMapSlice => BuildBytes (mapSliceMarshalEasyJSON WriteJSON [] newWriter)
  | ASlice l =>
      BuildBytes (RawByte "]" (marshalElements WriteJSON l (RawByte "[" newWriter)))
  | ANilOf TSlice => Ok [LNull]
  | Nil => Ok [LNull]
  | AString s => Ok [LString s]
  | ABool b => Ok [LBool b]
  | AInt _ z => Ok [LNumber (NumInt z)]
  | AUint _ z => Ok [LNumber (NumInt z)]
  | AFloat64 f =>
      if isFinite f then Ok [LNumber (NumFloat f)]
      else Err (LibError "json: unsupported value")
  | _ => Err (LibError "json: value outside the document model")
  end.

Definition itemMarshal : JSONMapItem -> Writer -> Writer :=
  itemMarshalEasyJSON WriteJSON.

Definition MarshalEasyJSON : JSONMapSlice -> Writer -> Writer :=
  mapSliceMarshalEasyJSON WriteJSON.

Definition MarshalJSON (s : JSONMapSlice) : result (list lexeme) :=
  BuildBytes (MarshalEasyJSON s newWriter).

(** A [JSONMapSlice] stored in an interface: [append] never ran on a slice
    with no entry, which is then nil. *)
Definition innerValue (inner : JSONMapSlice) : any :=
  match inner with
  | [] => ANilOf TJSONMapSlice
  | _ => AJSONMapSlice inner
  end.

(** [JSONMapSlice.unmarshalEasyJSONWithHooks], its loop, and
    [JSONMapItem.unmarshalEasyJSONWithHooks].  The first argument of each
    bounds the depth of the calls ([None] when it is used up); the
    receiver [s] is passed in and its new contents are returned with the
    lexer. *)
Fixpoint mapSliceUnmarshal (fuel : nat) (s : JSONMapSlice) (l : Lexer)
  : option (JSONMapSlice * Lexer) :=
  match fuel with
  | O => None
  | S fuel =>
      let '(null, l) := IsNull l in
      if null then Some (s, Skip l)
      else
        let l := Delim "{" l in
        mapSliceUnmarshalLoop fuel [] l
  end
with mapSliceUnmarshalLoop (fuel : nat) (result : JSONMapSlice) (l : Lexer)
  : option (JSONMapSlice * Lexer) :=
  match fuel with
  | O => None
  | S fuel =>
      let '(closing, l) := IsDelim "}" l in
      if closing then Some (result, l)
      else
        match itemUnmarshal fuel (mkItem "" Nil) l with
        | None => None
        | Some (mi, l) => mapSliceUnmarshalLoop fuel (result ++ [mi]) l
        end
  end
with itemUnmarshal (fuel : nat) (s : JSONMapItem) (l : Lexer)
  : option (JSONMapItem * Lexer) :=
  match fuel with
  | O => None
  | S fuel =>
      let '(key, l) := UnsafeString l in
      let l := WantColon l in
      let '(object, l) := IsDelim "{" l in
      let decoded :=
        if object then
          match mapSliceUnmarshal fuel [] l with
          | None => None
          | Some (inner, l) => Some (innerValue inner, l)
          end
        else
          let '(array, l) := IsDelim "[" l in
          if array then
            let '(element, l) := unmarshalSliceItem l in
            Some (AJSONSliceItem element, l)
          else Some (Interface l)
      in
      match decoded with
      | None => None
      | Some (value, l) =>
          let l := WantComma l in
          if negb (LexerOk l) then Some (s, l)
          else Some (mkItem key value, l)
      end
  end.

(** [UnmarshalJSON] on a receiver holding [s]: the receiver afterwards and
    [l.Error()].  Every call of the decoder reads a token or stops, so the
    length of the input bounds the depth of the calls (lemma
    [UnmarshalJSON_total] below). *)
Definition UnmarshalJSON (s : JSONMapSlice) (data : list lexeme)
  : option (JSONMapSlice * option error) :=
  match mapSliceUnmarshal (3 * List.length data + 2) s (newLexer data) with
  | Some (s', l) => Some (s', fatalError l)
  | None => None
  end.

End JSON.

(** ** A stand-in for the libraries

    The examples below carry explicit long tags and no float, so that they
    can be evaluated with the simplest library there is: [LongTag] reads the
    node's tag, floats are neither parsed nor printed, the YAML parser
    leaves the zero node on an empty input and yields the document
    [{a: 1, a: 2}] on any other, and arrays are not decoded. *)
Definition scalar (tag value : string) : Node := scalarNode tag value.

(** The mapping [{a: 1, a: 2}] and the document that holds it. *)
Definition duplicateMapping : Node :=
  collectionNode yaml.MappingNode
    [scalar yamlStringScalar "a"; scalar yamlIntScalar "1";
     scalar yamlStringScalar "a"; scalar yamlIntScalar "2"].

Definition duplicateDocument : Node :=
  collectionNode yaml.DocumentNode [duplicateMapping].

Definition exampleLibraries : Libraries :=
  {| LongTag := fun n => yaml.Tag n;
     ParseFloat := fun _ => Err ErrSyntax;
     FormatFloat := fun _ => "";
     yaml_Unmarshal := fun data =>
       match data with
       | [] => (yaml.zero, None)
       | _ => (duplicateDocument, None)
       end;
     yaml_Marshal := fun _ => Ok [];
     unmarshalSliceItem := fun l => (Nil, l) |}.

(** The children of a mapping node, key and value alternating. *)
Definition interleave {A} (pairs : list (A * A)) : list A :=
  flat_map (fun p => [fst p; snd p]) pairs.

(** The entries made from a mapping's pairs and the walked values. *)
Definition entriesOf (pairs : list (Node * Node)) (vals : list any) : JSONMapSlice :=
  map (fun pv => mkItem (yaml.Value (fst (fst pv))) (snd pv)) (combine pairs vals).


(** A parsed unit the entry point accepts: a Document node with exactly
    one child, a Mapping node. *)
Definition objectDocument (document : Node) : Prop :=
  yaml.Kind_ document = yaml.DocumentNode /\
  exists child, yaml.Content document = [child]
                /\ yaml.Kind_ child = yaml.MappingNode.

(** Ascending order on strings, bytewise. *)
Definition string_le (a b : string) : Prop := String.leb a b = true.

(** The key types of the key normaliser: a string, or a signed or unsigned
    integer of any width. *)
Definition isKeyType (k : any) : bool :=
  match k with
  | AString _ | AInt _ _ | AUint _ _ => true
  | _ => false
  end.

(** The canonical text of a key: the string itself, or the base-10 digits
    of the integer. *)
Definition canonicalKey (k : any) : string :=
  match k with
  | AString s => s
  | AInt _ z => FormatInt z
  | AUint _ z => FormatUint z
  | _ => ""
  end.

(** The entries made from a generic map's pairs and the normalised
    values. *)
Definition normalisedEntries (m : list (any * any)) (vals : list any) : JSONMapSlice :=
  map (fun kvv => mkItem (canonicalKey (fst (fst kvv))) (snd kvv)) (combine m vals).

Definition keyTypeError (k : any) : error :=
  Errorf "unexpected map key type, got: %T: %w" [typeName k] [ErrYAML].

(** The scalar payloads of a document: string, integer, finite float,
    boolean, null. *)
Definition isJSONScalar (v : any) : bool :=
  match v with
  | Nil | AString _ | ABool _ | AInt _ _ | AUint _ _ => true
  | AFloat64 f => isFinite f
  | _ => false
  end.

(** What a scalar payload is after encoding and decoding: an integer has
    become the [float64] nearest to it, any other scalar is itself. *)
Definition decodedScalar (v : any) : any :=
  match v with
  | AInt _ z | AUint _ z => AFloat64 (parseNumber (NumInt z))
  | _ => v
  end.

Definition decodedEntries (doc : JSONMapSlice) : JSONMapSlice :=
  map (fun it => mkItem (Key it) (decodedScalar (Value it))) doc.

(** The JSON text of a scalar, and of the entries of a document of
    scalars. *)
Definition scalarLexeme (v : any) : lexeme :=
  match v with
  | AString s => LString s
  | ABool b => LBool b
  | AInt _ z | AUint _ z => LNumber (NumInt z)
  | AFloat64 f => LNumber (NumFloat f)
  | _ => LNull
  end.

Fixpoint entriesText (doc : JSONMapSlice) : list lexeme :=
  match doc with
  | [] => []
  | it :: rest =>
      LString (Key it) :: LSep ":" :: scalarLexeme (Value it)
        :: match rest with
           | [] => []
           | _ :: _ => LSep "," :: entriesText rest
           end
  end.

Definition documentText (doc : JSONMapSlice) : list lexeme :=
  LDelim "{" :: entriesText doc ++ [LDelim "}"].

(** The text that follows an entry: a comma and the entries left, if
    any. *)
Definition followingText (rest : JSONMapSlice) : list lexeme :=
  match rest with
  | [] => []
  | _ :: _ => LSep "," :: entriesText rest
  end.

(** The lexer at three points of the decoding of [documentText]: after the
    opening brace, after an entry, and with the key of an entry scanned. *)
Definition lexerAtStart (rest : JSONMapSlice) : Lexer :=
  mkLexer (entriesText rest ++ [LDelim "}"]) Undef true None None.

Definition lexerAfterEntry (rest : JSONMapSlice) : Lexer :=
  mkLexer (followingText rest ++ [LDelim "}"]) Undef false (Some ","%char) None.

Definition lexerAtKey (first : bool) (it : JSONMapItem) (rest : JSONMapSlice) : Lexer :=
  mkLexer (LSep ":" :: scalarLexeme (Value it) :: followingText rest ++ [LDelim "}"])
          (TString (Key it)) first None None.

(** What is left for the lexer to hand out: the pending token and the
    lexemes not yet scanned; nothing once an error has occurred. *)
Definition pending (l : Lexer) : nat :=
  match tok l with Undef => 0 | _ => 1 end.

Definition weight (l : Lexer) : nat :=
  if LexerOk l then List.length (Data l) + pending l else 0.

(** The round trip as the data model states it: the bytes written for
    [doc] decode, without error, to [doc] itself. *)
Definition roundTripsExactly `{Libraries} (doc : JSONMapSlice) : Prop :=
  exists data,
    MarshalJSON doc = Ok data /\ UnmarshalJSON [] data = Some (doc, None).

(** [runs ps d st d' st']: the processors [ps], applied one after the other
    from the document [d] and the state [st], each to the result of the one
    before, all succeed and leave the document [d'] and the state [st']. *)
Inductive runs {St : Type}
  : list (DocProcessor St) -> any -> St -> any -> St -> Prop :=
| runs_nil (d : any) (st : St) : runs [] d st d st
| runs_cons (p : DocProcessor St) (ps : list (DocProcessor St))
            (d d' d'' : any) (st st' st'' : St) :
    p d st = ((d', None), st') ->
    runs ps d' st' d'' st'' ->
    runs (p :: ps) d st d'' st''.

(** Three processors that log their name in the state; the second one
    fails. *)
Definition logging (name : string) (ok : bool) : DocProcessor (list string) :=
  fun doc log =>
    ((AString name, if ok then None else Some (LibError name)), log ++ [name]).


(** ** The rest of [yaml.go]: matching, loading and conversion to JSON *)

(** [filepath.Ext]: the scan runs from the end of the path to the last
    path separator; [rest] holds the bytes before the position, last one
    first, [suffix] the bytes after it. *)
Fixpoint extScan (rest : list ascii) (suffix : string) : string :=
  match rest with
  | [] => ""
  | c :: rest' =>
      if Ascii.eqb c "/" then ""
      else if Ascii.eqb c "." then String c suffix
      else extScan rest' (String c suffix)
  end.

Definition Ext (path : string) : string :=
  extScan (rev (list_ascii_of_string path)) "".

Definition YAMLMatcher (path : string) : bool :=
  let ext := Ext path in
  String.eqb ext ".yaml" || String.eqb ext ".yml".

Section Loading.

Context `{Libraries}.

(** [LoadFromFileOrHTTP] reads a file or fetches a URL; it is defined
    outside [yaml.go] and is taken as given. *)
Variable LoadFromFileOrHTTP : string -> result (list Byte.byte).

Variable St : Type.

Definition YAMLToJSON (data : any) : result (list lexeme) :=
  match transformData data with
  | Err err => Err err
  | Panic => Panic
  | Ok jm => WriteJSON jm
  end.

Definition YAMLData (path : string) : result any :=
  match LoadFromFileOrHTTP path with
  | Err err => Err err
  | Panic => Panic
  | Ok data => BytesToYAMLDoc data
  end.

(** [YAMLDoc]: the JSON text or the error, and the state the processors
    leave. *)
Definition YAMLDoc (path : string) (opts : list (DocOption St)) (st : St)
  : result (list lexeme) * St :=
  match YAMLData path with
  | Err err => (Err err, st)
  | Panic => (Panic, st)
  | Ok yamlDoc =>
      let o := docOptionsWithDefaults opts in
      let '((doc, err), st') := ApplyTransforms o yamlDoc st in
      match err with
      | Some e => (Err e, st')
      | None => (YAMLToJSON doc, st')
      end
  end.

End Loading.

Arguments YAMLDoc {_} _ {St} _ _ _.

(** [JSONMapItem.MarshalJSON] and [JSONMapItem.UnmarshalJSON]: one entry
    on its own. *)
Definition itemMarshalJSON (s : JSONMapItem) : result (list lexeme) :=
  BuildBytes (itemMarshal s newWriter).

Definition itemUnmarshalJSON `{Libraries} (s : JSONMapItem) (data : list lexeme)
  : option (JSONMapItem * option error) :=
  match itemUnmarshal (3 * List.length data + 3) s (newLexer data) with
  | Some (s', l) => Some (s', fatalError l)
  | None => None
  end.

(** ** [util.go] *)

Definition collectionFormatSpace := "ssv".
Definition collectionFormatTab := "tsv".
Definition collectionFormatPipe := "pipes".
Definition collectionFormatMulti := "multi".

(** The [switch format] of [JoinByFormat] and [SplitByFormat]: the
    separator, or [None] for the multi format, which returns at once. *)
Definition separatorOf (format : string) : option string :=
  if String.eqb format collectionFormatSpace then Some " "
  else if String.eqb format collectionFormatTab
       then Some (String (ascii_of_nat 9) "")
  else if String.eqb format collectionFormatPipe then Some "|"
  else if String.eqb format collectionFormatMulti then None
  else Some ",".

(** [strings.Join]. *)
Fixpoint Join (elems : list string) (sep : string) : string :=
  match elems with
  | [] => ""
  | [x] => x
  | x :: rest => x ++ sep ++ Join rest sep
  end.

(** [strings.Split(s, sep)] for a separator that is not empty: [cur] is
    the piece being read, [skip] the bytes of a separator still to pass. *)
Fixpoint splitFrom (sep : string) (skip : nat) (s cur : string) : list string :=
  match s with
  | EmptyString => [cur]
  | String c s' =>
      match skip with
      | S skip' => splitFrom sep skip' s' cur
      | O =>
          if String.prefix sep s
          then cur :: splitFrom sep (Nat.pred (String.length sep)) s' ""
          else splitFrom sep O s' (cur ++ String c "")
      end
  end.

Definition Split (s sep : string) : list string := splitFrom sep O s "".

Definition JoinByFormat (data : list string) (format : string) : list string :=
  match data with
  | [] => data
  | _ =>
      match separatorOf format with
      | None => data
      | Some sep => [Join data sep]
      end
  end.

Definition ContainsStrings (coll : list string) (item : string) : bool :=
  existsb (fun a => String.eqb a item) coll.

Section Strings.

(** [strings.TrimSpace] and [strings.EqualFold] follow Unicode and are
    taken as given. *)
Variable TrimSpace : string -> string.
Variable EqualFold : string -> string -> bool.

(** The loop of [SplitByFormat] over the pieces. *)
Fixpoint trimmedPieces (pieces : list string) : list string :=
  match pieces with
  | [] => []
  | s :: pieces' =>
      let ts := TrimSpace s in
      if negb (String.eqb ts "") then ts :: trimmedPieces pieces'
      else trimmedPieces pieces'
  end.

Definition SplitByFormat (data format : string) : list string :=
  if String.eqb data "" then []
  else
    match separatorOf format with
    | None => []
    | Some sep => trimmedPieces (Split data sep)
    end.

Definition ContainsStringsCI (coll : list string) (item : string) : bool :=
  existsb (fun a => EqualFold a item) coll.

End Strings.

(** A stand-in for [strings.TrimSpace] on text without spaces at its
    ends. *)
Definition noTrim (s : string) : string := s.

(** ** Notions used in the properties below *)

(** The values of the Ordered Document Model: nested documents, lists,
    strings, booleans, [int64] in range, [float64], null. *)
Fixpoint isDocumentValue (v : any) : bool :=
  match v with
  | Nil | AString _ | ABool _ | AFloat64 _ => true
  | AInt Int64 z => (- 2 ^ 63 <=? z) && (z <? 2 ^ 63)
  | AJSONMapSlice s =>
      forallb (fun it => match it with mkItem _ x => isDocumentValue x end) s
  | ASlice l => forallb isDocumentValue l
  | _ => false
  end.

(** The values [transformData] leaves as they are: anything but a YAML
    node, a generic map, a nil slice, or a list holding one of them. *)
Fixpoint settled (v : any) : bool :=
  match v with
  | ANode _ | ANodePtr _ | AGenMap _ => false
  | ANilOf TNodePtr | ANilOf TGenMap | ANilOf TSlice => false
  | ASlice l => forallb settled l
  | _ => true
  end.



(** What an option registers: a processor, or the XOrder processor when
    enabled. *)
Inductive optionSpec (St : Type) : Type :=
| Processor (p : DocProcessor St)
| XOrder (enabled : bool).
Arguments Processor {St} p.
Arguments XOrder {St} enabled.

Definition optionOf {St : Type} (o : optionSpec St) : DocOption St :=
  match o with
  | Processor p => WithDocProcessor p
  | XOrder enabled => WithXOrderProcessor enabled
  end.

Definition registered {St : Type} (o : optionSpec St) : list (DocProcessor St) :=
  match o with
  | Processor p => [p]
  | XOrder true => [xOrderProcessor]
  | XOrder false => []
  end.

(** The documents whose dynamic type the XOrder processor accepts:
    [yaml.Node], [*yaml.Node] (nil or not) and [JSONMapSlice] (nil or
    not). *)
Definition acceptedByXOrder (doc : any) : bool :=
  match doc with
  | ANode _ | ANodePtr _ | ANilOf TNodePtr => true
  | AJSONMapSlice _ | ANilOf TJSONMapSlice => true
  | _ => false
  end.

(** The lexer inside an object, with [data] left to read: after an entry
    (a comma is expected before the next one), and before an entry, either
    the first one ([fresh]) or one that a comma announces. *)
Definition lexerAfter (data : list lexeme) : Lexer :=
  mkLexer data Undef false (Some ","%char) None.

Definition lexerBefore (fresh : bool) (data : list lexeme) : Lexer :=
  if fresh then mkLexer data Undef true None None
  else lexerAfter (LSep "," :: data).

(** The entries of a document of scalars, each followed by what comes
    after it: a comma before every entry but the first. *)
Fixpoint entriesThen (fresh : bool) (doc : JSONMapSlice) (tail : list lexeme)
  : list lexeme :=
  match doc with
  | [] => tail
  | it :: rest =>
      (if fresh then [] else [LSep ","])
        ++ LString (Key it) :: LSep ":" :: scalarLexeme (Value it)
        :: entriesThen false rest tail
  end.

(** * Examples *)

Example FormatInt_examples :
  FormatInt 42 = "42" /\ FormatInt (-7) = "-7" /\ FormatInt 0 = "0".
Proof. repeat split. Qed.

Example ParseInt_examples :
  ParseInt "42" = Ok 42
  /\ ParseInt "-9223372036854775808" = Ok (-9223372036854775808)
  /\ ParseInt "9223372036854775808" = Err ErrRange
  /\ ParseInt "4x" = Err ErrSyntax
  /\ ParseInt "" = Err ErrSyntax.
Proof. repeat split. Qed.

Example ParseBool_examples :
  ParseBool "true" = Ok true /\ ParseBool "0" = Ok false
  /\ ParseBool "yes" = Err ErrSyntax.
Proof. repeat split. Qed.

Example sortStrings_example :
  sortStrings ["b"; "a"; "B"; "ab"] = ["B"; "a"; "ab"; "b"].
Proof. reflexivity. Qed.

(** The document [{a: 1, a: 2}] is walked into two entries. *)
Example yamlNode_duplicateDocument :
  @yamlNode exampleLibraries duplicateDocument
  = Ok (AJSONMapSlice [mkItem "a" (AInt Int64 1); mkItem "a" (AInt Int64 2)]).
Proof. reflexivity. Qed.

(** The null tag yields the null value whatever the text; the integer tag
    yields an integer. *)
Example yamlScalar_examples :
  @yamlScalar exampleLibraries (scalar yamlNull "false") = Ok Nil
  /\ @yamlScalar exampleLibraries (scalar yamlIntScalar "42") = Ok (AInt Int64 42)
  /\ @yamlScalar exampleLibraries (scalar yamlTimestamp "2001-12-14")
     = Ok (AString "2001-12-14")
  /\ exists e, @yamlScalar exampleLibraries (scalar "!custom" "x") = Err e.
Proof. repeat split. eexists. reflexivity. Qed.

(** A sequence at the root, and a document with two children, are
    rejected by the walk of a document. *)
Example yamlDocument_two_children :
  exists e,
    @yamlNode exampleLibraries
      (collectionNode yaml.DocumentNode [duplicateMapping; duplicateMapping])
    = Err e.
Proof. eexists. reflexivity. Qed.

(** An integer key and the string key with the same digits both become
    entries. *)
Example transformData_colliding_keys :
  @transformData exampleLibraries
    (AGenMap [(AInt Int 7, AString "x"); (AString "7", ABool true)])
  = Ok (AJSONMapSlice [mkItem "7" (AString "x"); mkItem "7" (ABool true)]).
Proof. reflexivity. Qed.

Example MarshalJSON_example :
  MarshalJSON [mkItem "a" (AInt Int64 1);
               mkItem "b" (AJSONMapSlice [mkItem "c" (ABool true)]);
               mkItem "d" (ASlice [AString "x"; Nil])]
  = Ok [LDelim "{"; LString "a"; LSep ":"; LNumber (NumInt 1); LSep ",";
        LString "b"; LSep ":";
        LDelim "{"; LString "c"; LSep ":"; LBool true; LDelim "}"; LSep ",";
        LString "d"; LSep ":";
        LDelim "["; LString "x"; LSep ","; LNull; LDelim "]";
        LDelim "}"].
Proof. reflexivity. Qed.

(** [json2yaml] on a slice and on an unsupported value. *)
Example json2yaml_examples :
  @json2yaml exampleLibraries (ASlice [AString "x"; ABool false])
  = Ok (collectionNode yaml.SequenceNode
          [scalar yamlStringScalar "x"; scalar yamlBoolScalar "false"])
  /\ @json2yaml exampleLibraries (AInt Int32 5)
     = Err (Errorf "unhandled type: %T: %w" ["int32"] [ErrYAML]).
Proof. repeat split. Qed.

(** * Properties of the tree walk *)

Section WalkFacts.

Context `{Libraries}.

Lemma yamlNode_eq (root : Node) :
  yamlNode root =
  let k := yaml.Kind_ root in
  if k =? yaml.DocumentNode then yamlDocument root
  else if k =? yaml.SequenceNode then yamlSequence root
  else if k =? yaml.MappingNode then yamlMapping root
  else if k =? yaml.ScalarNode then yamlScalar root
  else if k =? yaml.AliasNode then
    match yaml.Alias root with
    | Some target => yamlNode target
    | None => Panic
    end
  else Err (Errorf "unsupported YAML node type: %v: %w" [FormatInt k] [ErrYAML]).
Proof. destruct root; reflexivity. Qed.


Lemma yamlStringScalarC_not_Panic (node : Node) : yamlStringScalarC node <> Panic.
Proof.
  unfold yamlStringScalarC.
  destruct (negb _); [discriminate |].
  destruct (_ || _); discriminate.
Qed.

Lemma yamlStringScalarC_cases (node : Node) :
  yamlStringScalarC node = Ok (yaml.Value node)
  \/ exists e, yamlStringScalarC node = Err e.
Proof.
  unfold yamlStringScalarC.
  destruct (negb _); [right; eauto |].
  destruct (_ || _); [left; reflexivity | right; eauto].
Qed.

Section LoopFacts.

Variable walk : Node -> result any.

(** The mapping loop succeeds exactly when every key passes the key check
    and every value is walked, and then has one entry per pair, in order. *)
Lemma mappingLoop_Ok (pairs : list (Node * Node)) (m : JSONMapSlice) :
  mappingLoop walk (interleave pairs) = Ok m <->
  exists vals,
    Forall2 (fun p v => yamlStringScalarC (fst p) = Ok (yaml.Value (fst p))
                        /\ walk (snd p) = Ok v) pairs vals
    /\ m = entriesOf pairs vals.
Proof.
  revert m. induction pairs as [| [key vn] pairs IH]; intros m; simpl.
  - split.
    + intros [= <-]. exists []. split; [constructor | reflexivity].
    + intros (vals & HF & ->). inversion HF; subst. reflexivity.
  - destruct (yamlStringScalarC_cases key) as [Hk | [e Hk]]; rewrite Hk.
    + destruct (walk vn) as [v | e |] eqn:Hv.
      * destruct (mappingLoop walk (interleave pairs)) as [m' | e |] eqn:Hl.
        -- destruct (proj1 (IH m') eq_refl) as (vals & HF & ->).
           split.
           ++ intros [= <-]. exists (v :: vals). split; [| reflexivity].
              constructor; [simpl; auto | exact HF].
           ++ intros (vals' & HF' & ->).
              inversion HF' as [| p v' ps vs' [_ Hv'] HF'' E1 E2]; subst.
              simpl in Hv'. rewrite Hv in Hv'. injection Hv' as <-.
              assert (Hm : Ok (entriesOf pairs vals) = Ok (entriesOf pairs vs'))
                by (apply IH; eauto).
              injection Hm as Hm. unfold entriesOf in *. simpl.
              rewrite Hm. reflexivity.
        -- split; [discriminate |].
           intros (vals' & HF' & ->).
           inversion HF' as [| p v' ps vs' _ HF'' E1 E2]; subst.
           assert (Hm : Err e = Ok (entriesOf pairs vs')) by (apply IH; eauto).
           discriminate.
        -- split; [discriminate |].
           intros (vals' & HF' & ->).
           inversion HF' as [| p v' ps vs' _ HF'' E1 E2]; subst.
           assert (Hm : Panic = Ok (entriesOf pairs vs')) by (apply IH; eauto).
           discriminate.
      * split; [discriminate |].
        intros (vals' & HF' & _).
        inversion HF' as [| p v' ps vs' [_ Hv'] HF'' E1 E2]; subst.
        simpl in Hv'. congruence.
      * split; [discriminate |].
        intros (vals' & HF' & _).
        inversion HF' as [| p v' ps vs' [_ Hv'] HF'' E1 E2]; subst.
        simpl in Hv'. congruence.
    + split; [discriminate |].
      intros (vals' & HF' & _).
      inversion HF' as [| p v' ps vs' [Hk' _] HF'' E1 E2]; subst.
      simpl in Hk'. congruence.
Qed.



End LoopFacts.

(** C4: a mapping that holds the same key more than once is walked into one
    entry per occurrence: given the key/value pairs of the mapping node,
    [yamlMapping] succeeds exactly when every key passes the key check and
    every value is walked, and its result then has one entry per pair, in
    arrival order, each with the text of its key node and the walked value
    of its value node, whether or not keys repeat. *)
Theorem yamlMapping_keeps_duplicate_keys
        (node : Node) (pairs : list (Node * Node)) :
  yaml.Content node = interleave pairs ->
  forall r : any,
    yamlMapping node = Ok r <->
    exists vals,
      Forall2 (fun p v => yamlStringScalarC (fst p) = Ok (yaml.Value (fst p))
                          /\ yamlNode (snd p) = Ok v) pairs vals
      /\ r = AJSONMapSlice (entriesOf pairs vals)
      /\ map Key (entriesOf pairs vals) = map (fun p => yaml.Value (fst p)) pairs
      /\ map Value (entriesOf pairs vals) = vals.
Proof.
  intros Hc r. unfold yamlMapping. rewrite Hc.
  assert (Hshape : forall vals,
             Forall2 (fun p v => yamlStringScalarC (fst p) = Ok (yaml.Value (fst p))
                                 /\ yamlNode (snd p) = Ok v) pairs vals ->
             map Key (entriesOf pairs vals) = map (fun p => yaml.Value (fst p)) pairs
             /\ map Value (entriesOf pairs vals) = vals).
  { clear Hc. intros vals HF. unfold entriesOf.
    induction HF as [| p v ps vs _ _ [IH1 IH2]]; simpl.
    - auto.
    - rewrite IH1, IH2. auto. }
  split.
  - destruct (mappingLoop yamlNode (interleave pairs)) as [m | e |] eqn:Hl;
      simpl; try discriminate.
    intros [= <-]. apply mappingLoop_Ok in Hl. destruct Hl as (vals & HF & ->).
    exists vals. destruct (Hshape vals HF). auto.
  - intros (vals & HF & -> & _).
    assert (Hl : mappingLoop yamlNode (interleave pairs) = Ok (entriesOf pairs vals))
      by (apply mappingLoop_Ok; eauto).
    rewrite Hl. reflexivity.
Qed.


(** C6: [BytesToYAMLDoc] returns a document value exactly when the parser
    reports no error and the parsed unit is a Document node with exactly
    one child, a Mapping node; the value is then the pointer to that
    document.  In every other case it returns an error and no value. *)
Theorem BytesToYAMLDoc_object_root
        (data : list Byte.byte) (document : Node) (err : option error) :
  yaml_Unmarshal data = (document, err) ->
  (forall doc, BytesToYAMLDoc data = Ok doc <->
               err = None /\ objectDocument document /\ doc = ANodePtr document)
  /\ (err <> None \/ ~ objectDocument document ->
      exists e, BytesToYAMLDoc data = Err e).
Proof.
  intros Hp. unfold BytesToYAMLDoc, objectDocument. rewrite Hp.
  destruct err as [e |].
  { split.
    - intros doc. split; [discriminate | intros ([=] & _)].
    - eauto. }
  destruct (Z.eqb_spec (yaml.Kind_ document) yaml.DocumentNode) as [Hk | Hk]; simpl.
  2:{ split.
      - intros doc. split; [discriminate | intros (_ & (? & _) & _); contradiction].
      - eauto. }
  destruct (yaml.Content document) as [| child [| c2 content]] eqn:Hc.
  - simpl. split.
    + intros doc. split; [discriminate | intros (_ & (_ & c & [=] & _) & _)].
    + eauto.
  - simpl.
    destruct (Z.eqb_spec (yaml.Kind_ child) yaml.MappingNode) as [Hm | Hm]; simpl.
    + split.
      * intros doc. split.
        -- intros [= <-]. eauto 8.
        -- intros (_ & _ & ->). reflexivity.
      * intros [Hn | Hn]; [contradiction |]. exfalso. apply Hn. eauto.
    + split.
      * intros doc. split; [discriminate |].
        intros (_ & (_ & c & [= <-] & Hm') & _). contradiction.
      * eauto.
  - replace (Z.of_nat (List.length (child :: c2 :: content)) =? 1) with false
      by (symmetry; apply Z.eqb_neq; simpl List.length; lia).
    simpl. split.
    + intros doc. split; [discriminate | intros (_ & (_ & c & [=] & _) & _)].
    + eauto.
Qed.

End WalkFacts.

Lemma yamlMapping_keeps_duplicate_keys_witness :
  yaml.Content duplicateMapping
  = interleave [(scalar yamlStringScalar "a", scalar yamlIntScalar "1");
                (scalar yamlStringScalar "a", scalar yamlIntScalar "2")]
  /\ @yamlMapping exampleLibraries duplicateMapping
     = Ok (AJSONMapSlice [mkItem "a" (AInt Int64 1); mkItem "a" (AInt Int64 2)]).
Proof.
  split; [reflexivity |].
  apply (@yamlMapping_keeps_duplicate_keys exampleLibraries duplicateMapping
           [(scalar yamlStringScalar "a", scalar yamlIntScalar "1");
            (scalar yamlStringScalar "a", scalar yamlIntScalar "2")] eq_refl).
  exists [AInt Int64 1; AInt Int64 2].
  repeat split; repeat constructor.
Defined.


Lemma BytesToYAMLDoc_object_root_witness :
  @yaml_Unmarshal exampleLibraries [Byte.x61] = (duplicateDocument, None)
  /\ @BytesToYAMLDoc exampleLibraries [Byte.x61] = Ok (ANodePtr duplicateDocument).
Proof.
  split; [reflexivity |].
  apply (@BytesToYAMLDoc_object_root exampleLibraries [Byte.x61]
           duplicateDocument None eq_refl).
  split; [reflexivity |]. split; [| reflexivity].
  split; [reflexivity |]. exists duplicateMapping. split; reflexivity.
Defined.

(** * Properties of the transform pipeline *)

Section PipelineFacts.

Variable St : Type.

Lemma docOptionsWithDefaults_app (o : docOptions St)
      (ps : list (DocProcessor St)) :
  processors (fold_left (fun o apply => apply o) (map WithDocProcessor ps) o)
  = processors o ++ ps.
Proof.
  revert o. induction ps as [| p ps IH]; intros o; simpl.
  - rewrite app_nil_r. reflexivity.
  - rewrite IH. simpl. rewrite <- app_assoc. reflexivity.
Qed.

Lemma applyLoop_runs (ps rest : list (DocProcessor St)) (d d' : any) (st st' : St) :
  runs ps d st d' st' ->
  applyLoop (ps ++ rest) d st = applyLoop rest d' st'.
Proof.
  induction 1 as [| p ps d d1 d2 st st1 st2 Hp _ IH]; simpl.
  - reflexivity.
  - rewrite Hp. exact IH.
Qed.

(** C5: the processors registered with [WithDocProcessor] are kept in
    registration order; [ApplyTransforms] runs them in that order, each on
    the result of the one before; when one fails after the ones before it
    succeeded, its error is returned with no document, and the state is the
    one that processor left: no later processor runs; with no processor
    the input document is returned as it is. *)
Theorem ApplyTransforms_in_order :
  (forall ps : list (DocProcessor St),
      processors (docOptionsWithDefaults (map WithDocProcessor ps)) = ps)
  /\ (forall ps d (st : St) d' st',
         runs ps d st d' st' ->
         ApplyTransforms (mkDocOptions ps) d st = ((d', None), st'))
  /\ (forall pre p post d (st : St) d1 st1 x e st2,
         runs pre d st d1 st1 ->
         p d1 st1 = ((x, Some e), st2) ->
         ApplyTransforms (mkDocOptions (pre ++ p :: post)) d st
         = ((Nil, Some e), st2))
  /\ (forall d (st : St), ApplyTransforms (mkDocOptions []) d st = ((d, None), st)).
Proof.
  split; [| split; [| split]].
  - intros ps. unfold docOptionsWithDefaults.
    rewrite docOptionsWithDefaults_app. reflexivity.
  - intros ps d st d' st' Hr. unfold ApplyTransforms. simpl.
    rewrite <- (app_nil_r ps). rewrite (applyLoop_runs _ _ _ _ _ _ Hr).
    reflexivity.
  - intros pre p post d st d1 st1 x e st2 Hr Hp. unfold ApplyTransforms. simpl.
    rewrite (applyLoop_runs _ _ _ _ _ _ Hr). simpl. rewrite Hp. reflexivity.
  - reflexivity.
Qed.

(** C10: the processor installed by [WithXOrderProcessor(true)] is the only
    one registered, and on a document whose dynamic type is [yaml.Node],
    [*yaml.Node] or [JSONMapSlice] the pipeline returns the nil document
    with a nil error: the document is replaced by nothing. *)
Theorem WithXOrderProcessor_returns_nil (st : St) (n : Node) (s : JSONMapSlice) :
  let o := docOptionsWithDefaults [WithXOrderProcessor true] in
  processors o = [xOrderProcessor]
  /\ xOrderProcessor (ANode n) st = ((Nil, None), st)
  /\ xOrderProcessor (ANodePtr n) st = ((Nil, None), st)
  /\ xOrderProcessor (ANilOf TNodePtr) st = ((Nil, None), st)
  /\ xOrderProcessor (AJSONMapSlice s) st = ((Nil, None), st)
  /\ xOrderProcessor (ANilOf TJSONMapSlice) st = ((Nil, None), st)
  /\ ApplyTransforms o (ANode n) st = ((Nil, None), st)
  /\ ApplyTransforms o (ANodePtr n) st = ((Nil, None), st)
  /\ ApplyTransforms o (ANilOf TNodePtr) st = ((Nil, None), st)
  /\ ApplyTransforms o (AJSONMapSlice s) st = ((Nil, None), st)
  /\ ApplyTransforms o (ANilOf TJSONMapSlice) st = ((Nil, None), st).
Proof. repeat split. Qed.

End PipelineFacts.

Lemma ApplyTransforms_in_order_witness :
  runs [logging "P1" true] (AString "doc") [] (AString "P1") ["P1"]
  /\ ApplyTransforms
       (mkDocOptions ([logging "P1" true] ++ logging "P2" false :: [logging "P3" true]))
       (AString "doc") []
     = ((Nil, Some (LibError "P2")), ["P1"; "P2"]).
Proof.
  assert (Hr : runs [logging "P1" true] (AString "doc") [] (AString "P1") ["P1"]).
  { eapply runs_cons; [reflexivity | apply runs_nil]. }
  split; [exact Hr |].
  destruct (ApplyTransforms_in_order (list string)) as (_ & _ & Hfail & _).
  apply (Hfail _ _ _ _ _ _ _ (AString "P2") _ _ Hr). reflexivity.
Defined.

(** * Properties of the reverse converter *)

(** ** Sorting strings *)

Lemma string_compare_lt_trans (a b c : string) :
  String.compare a b = Lt -> String.compare b c = Lt -> String.compare a c = Lt.
Proof.
  revert b c. induction a as [| x a IH]; intros [| y b] [| z c]; simpl;
    try discriminate; auto.
  unfold Ascii.compare.
  destruct (N.compare_spec (N_of_ascii x) (N_of_ascii y)) as [Hxy | Hxy | Hxy];
    destruct (N.compare_spec (N_of_ascii y) (N_of_ascii z)) as [Hyz | Hyz | Hyz];
    try discriminate; intros Hab Hbc.
  - rewrite Hxy, Hyz, N.compare_refl. eauto.
  - rewrite Hxy. apply N.compare_lt_iff in Hyz. rewrite Hyz. reflexivity.
  - rewrite <- Hyz. apply N.compare_lt_iff in Hxy. rewrite Hxy. reflexivity.
  - assert (Hxz : (N_of_ascii x < N_of_ascii z)%N) by (eapply N.lt_trans; eauto).
    apply N.compare_lt_iff in Hxz. rewrite Hxz. reflexivity.
Qed.

Lemma string_compare_refl (a : string) : String.compare a a = Eq.
Proof.
  pose proof (String.compare_antisym a a) as Ha.
  destruct (String.compare a a); simpl in Ha; congruence.
Qed.

Lemma string_le_cases (a b : string) :
  string_le a b <-> String.compare a b = Lt \/ a = b.
Proof.
  unfold string_le, String.leb.
  destruct (String.compare a b) eqn:Hc; split; intros Hx; auto; try discriminate.
  - right. apply String.compare_eq_iff. exact Hc.
  - destruct Hx as [Hx | ->]; [discriminate |].
    rewrite string_compare_refl in Hc. discriminate.
Qed.

Lemma string_le_trans (a b c : string) :
  string_le a b -> string_le b c -> string_le a c.
Proof.
  rewrite !string_le_cases.
  intros [Hab | ->] [Hbc | ->]; auto.
  left. eapply string_compare_lt_trans; eauto.
Qed.

Lemma string_le_antisym (a b : string) : string_le a b -> string_le b a -> a = b.
Proof. unfold string_le. apply String.leb_antisym. Qed.

Lemma string_le_total (a b : string) : string_le a b \/ string_le b a.
Proof. unfold string_le. apply String.leb_total. Qed.

Lemma insertString_perm (k : string) (l : list string) :
  Permutation (insertString k l) (k :: l).
Proof.
  induction l as [| x l IH]; simpl; [reflexivity |].
  destruct (String.leb k x); [reflexivity |].
  rewrite IH. apply perm_swap.
Qed.

Lemma sortStrings_perm (l : list string) : Permutation (sortStrings l) l.
Proof.
  induction l as [| k l IH]; simpl; [reflexivity |].
  rewrite insertString_perm. constructor. exact IH.
Qed.

Lemma insertString_sorted (k : string) (l : list string) :
  StronglySorted string_le l -> StronglySorted string_le (insertString k l).
Proof.
  induction 1 as [| x l Hs IH Hx]; simpl.
  - repeat constructor.
  - destruct (String.leb k x) eqn:Hkx.
    + constructor; [constructor; assumption |].
      constructor; [exact Hkx |].
      eapply Forall_impl; [| exact Hx].
      intros y Hy. eapply string_le_trans; eauto.
    + constructor; [exact IH |].
      assert (Hxk : string_le x k).
      { destruct (string_le_total k x) as [Hc | Hc]; [| exact Hc].
        unfold string_le in Hc. congruence. }
      eapply Permutation_Forall; [symmetry; apply insertString_perm |].
      constructor; assumption.
Qed.

Lemma sortStrings_sorted (l : list string) : StronglySorted string_le (sortStrings l).
Proof.
  induction l as [| k l IH]; simpl; [constructor |].
  apply insertString_sorted. exact IH.
Qed.

(** Two sorted lists with the same elements are equal. *)
Lemma sorted_perm_unique (l l' : list string) :
  StronglySorted string_le l -> StronglySorted string_le l' ->
  Permutation l l' -> l = l'.
Proof.
  intros Hl. revert l'. induction Hl as [| a l Hs IH Ha]; intros l' Hl' Hp.
  - apply Permutation_nil in Hp. auto.
  - destruct Hl' as [| b l' Hs' Hb].
    + symmetry in Hp. apply Permutation_nil in Hp. discriminate.
    + assert (Hab : a = b).
      { assert (Hin : In a (b :: l'))
          by (eapply Permutation_in; [exact Hp | left; reflexivity]).
        assert (Hin' : In b (a :: l))
          by (eapply Permutation_in; [symmetry; exact Hp | left; reflexivity]).
        destruct Hin as [-> | Hin]; [reflexivity |].
        destruct Hin' as [<- | Hin']; [reflexivity |].
        rewrite Forall_forall in Ha, Hb.
        apply string_le_antisym; auto. }
      subst b. f_equal. apply IH; [exact Hs' |].
      eapply Permutation_cons_inv. exact Hp.
Qed.

Lemma sortStrings_perm_invariant (l l' : list string) :
  Permutation l l' -> sortStrings l = sortStrings l'.
Proof.
  intros Hp. apply sorted_perm_unique; try apply sortStrings_sorted.
  rewrite !sortStrings_perm. exact Hp.
Qed.

(** Reading a map does not depend on the order it is listed in. *)
Lemma mapIndex_perm (val val' : list (string * any)) (k : string) :
  NoDup (map fst val) -> Permutation val val' -> mapIndex val k = mapIndex val' k.
Proof.
  intros Hnd Hp. induction Hp as [| [k1 v1] l l' Hp IH | [k1 v1] [k2 v2] l | l l' l'' Hp1 IH1 Hp2 IH2].
  - reflexivity.
  - simpl. inversion Hnd; subst. rewrite IH by assumption. reflexivity.
  - simpl. destruct (String.eqb_spec k k1) as [E1 | N1];
      destruct (String.eqb_spec k k2) as [E2 | N2]; try reflexivity.
    simpl in Hnd. inversion Hnd as [| ? ? Hn _]; subst.
    exfalso. apply Hn. left. reflexivity.
  - rewrite IH1 by assumption. apply IH2.
    eapply Permutation_NoDup; [| exact Hnd].
    apply Permutation_map. exact Hp1.
Qed.

(** ** [json2yaml] *)

Section ReverseFacts.

Context `{Libraries}.

(** The call [json2yaml(&val[i].Value)] is [json2yaml] on a pointer to an
    interface. *)
Lemma json2yamlAt_address (v : any) :
  json2yamlAt true v = json2yaml (AInterfacePtr v).
Proof. destruct v; reflexivity. Qed.

Lemma json2yamlAt_value (v : any) : json2yamlAt false v = json2yaml v.
Proof. reflexivity. Qed.

Lemma mapSliceLoop_ext (f g : any -> result Node) (val : list JSONMapItem) :
  (forall v, f v = g v) -> mapSliceLoop f val = mapSliceLoop g val.
Proof.
  intros Hfg. induction val as [| it val IH]; simpl; [reflexivity |].
  rewrite Hfg, IH. reflexivity.
Qed.

Lemma childAt_mapIndex (val : list (string * any)) (k : string) :
  childAt json2yaml val k = json2yaml (mapIndex val k).
Proof.
  induction val as [| [k' v] val IH]; simpl; [reflexivity |].
  destruct (String.eqb k k'); [reflexivity | exact IH].
Qed.

(** [json2yaml] as the source writes it. *)
Lemma json2yaml_eq (item : any) :
  json2yaml item =
  if isNil item then Ok (scalarNode "" "null")
  else
    match item with
    | AJSONMapSlice val =>
        wrapNode yaml.MappingNode
                 (mapSliceLoop (fun v => json2yaml (AInterfacePtr v)) val)
    | AMap val =>
        wrapNode yaml.MappingNode
                 (mapLoop json2yaml val (sortStrings (map fst val)))
    | ASlice val => wrapNode yaml.SequenceNode (sliceLoop json2yaml val)
    | AString val => Ok (scalarNode yamlStringScalar val)
    | AFloat64 val => Ok (scalarNode yamlFloatScalar (FormatFloat val))
    | AInt Int64 val => Ok (scalarNode yamlIntScalar (FormatInt val))
    | AUint Uint64 val => Ok (scalarNode yamlIntScalar (FormatUint val))
    | ABool val => Ok (scalarNode yamlBoolScalar (FormatBool val))
    | _ => Err (unhandledType item)
    end.
Proof.
  destruct item as [| | | k z | k z | | val | | | | | | | | |];
    try reflexivity; try (destruct k; reflexivity).
  unfold json2yaml. simpl. f_equal.
  apply mapSliceLoop_ext. apply json2yamlAt_address.
Qed.

(** A pointer to an interface matches no case of the type switch. *)
Lemma json2yaml_pointer (v : any) :
  json2yaml (AInterfacePtr v) = Err (unhandledType (AInterfacePtr v)).
Proof. reflexivity. Qed.

(** Hence a [JSONMapSlice] with at least one entry is never converted. *)
Lemma json2yaml_nested_fails (it : JSONMapItem) (val : list JSONMapItem) :
  json2yaml (AJSONMapSlice (it :: val))
  = Err (Errorf "unhandled type: %T: %w" ["*interface {}"] [ErrYAML]).
Proof. rewrite json2yaml_eq. reflexivity. Qed.

(** C2 (code bug): [MarshalYAML] on the document [{a: {b: "x"}}], whose
    values are a nested document and a string, returns the error
    "unhandled type: *interface {}" instead of a mapping node: the nested
    document's entry is handed to [json2yaml] by address. *)
Theorem MarshalYAML_nested_document_error :
  MarshalYAML [mkItem "a" (AJSONMapSlice [mkItem "b" (AString "x")])]
  = Err (Errorf "unhandled type: %T: %w" ["*interface {}"] [ErrYAML]).
Proof.
  unfold MarshalYAML, marshalYAMLDocument, marshalYAMLLoop, Value.
  rewrite json2yaml_nested_fails. reflexivity.
Qed.


Section MapLoopFacts.

Variable child : any -> result Node.

Lemma mapLoop_Ok (val : list (string * any)) (keys : list string)
      (content : list Node) :
  mapLoop child val keys = Ok content <->
  exists children,
    Forall2 (fun k c => childAt child val k = Ok c) keys children
    /\ content
       = interleave (combine (map (scalarNode yamlStringScalar) keys) children).
Proof.
  revert content. induction keys as [| k keys IH]; intros content; simpl.
  - split.
    + intros [= <-]. exists []. split; [constructor | reflexivity].
    + intros (children & HF & ->). inversion HF; subst. reflexivity.
  - destruct (childAt child val k) as [c | e |] eqn:Hc.
    + destruct (mapLoop child val keys) as [content' | e |] eqn:Hl.
      * destruct (proj1 (IH content') eq_refl) as (children & HF & ->).
        split.
        -- intros [= <-]. exists (c :: children). split; [| reflexivity].
           constructor; assumption.
        -- intros (children' & HF' & ->).
           inversion HF' as [| k' c' ks cs Hc' HF'' E1 E2]; subst.
           assert (c' = c) by congruence. subst c'.
           assert (Hm : Ok (interleave (combine (map (scalarNode yamlStringScalar) keys) children))
                        = Ok (interleave (combine (map (scalarNode yamlStringScalar) keys) cs)))
             by (apply IH; eauto).
           injection Hm as Hm. simpl. unfold interleave in *. rewrite Hm.
           reflexivity.
      * split; [discriminate |].
        intros (children' & HF' & ->).
        inversion HF' as [| k' c' ks cs Hc' HF'' E1 E2]; subst.
        assert (Hm : Err e = Ok (interleave (combine (map (scalarNode yamlStringScalar) keys) cs)))
          by (apply IH; eauto).
        discriminate.
      * split; [discriminate |].
        intros (children' & HF' & ->).
        inversion HF' as [| k' c' ks cs Hc' HF'' E1 E2]; subst.
        assert (Hm : Panic = Ok (interleave (combine (map (scalarNode yamlStringScalar) keys) cs)))
          by (apply IH; eauto).
        discriminate.
    + split; [discriminate |].
      intros (children' & HF' & _).
      inversion HF' as [| k' c' ks cs Hc' HF'' E1 E2]; subst. congruence.
    + split; [discriminate |].
      intros (children' & HF' & _).
      inversion HF' as [| k' c' ks cs Hc' HF'' E1 E2]; subst. congruence.
Qed.

Lemma mapLoop_ext (val val' : list (string * any)) (keys : list string) :
  (forall k, childAt child val k = childAt child val' k) ->
  mapLoop child val keys = mapLoop child val' keys.
Proof.
  intros Hc. induction keys as [| k keys IH]; simpl; [reflexivity |].
  rewrite Hc, IH. reflexivity.
Qed.

End MapLoopFacts.

(** C8: the node made for a [map[string]interface{}] lists the keys in
    ascending order, whatever order the map is visited in: the keys
    used are the map's keys sorted; the conversion succeeds exactly when
    the value under each of them converts, and the mapping node then holds,
    for each sorted key in turn, the key as a string scalar followed by its
    converted value; every listing of the same map gives the same result. *)
Theorem json2yaml_map_sorted (val : list (string * any)) :
  NoDup (map fst val) ->
  let keys := sortStrings (map fst val) in
  StronglySorted string_le keys
  /\ Permutation keys (map fst val)
  /\ (forall n,
         json2yaml (AMap val) = Ok n <->
         exists children,
           Forall2 (fun k c => json2yaml (mapIndex val k) = Ok c) keys children
           /\ n = collectionNode yaml.MappingNode
                    (interleave (combine (map (scalarNode yamlStringScalar) keys)
                                         children)))
  /\ (forall val', Permutation val val' ->
                   json2yaml (AMap val') = json2yaml (AMap val)).
Proof.
  intros Hnd keys. split; [apply sortStrings_sorted |].
  split; [apply sortStrings_perm |]. split.
  - intros n. rewrite json2yaml_eq. simpl. fold keys.
    destruct (mapLoop json2yaml val keys) as [content | e |] eqn:Hl; simpl.
    + apply mapLoop_Ok in Hl. destruct Hl as (children & HF & ->).
      split.
      * intros [= <-]. exists children. split; [| reflexivity].
        eapply Forall2_impl; [| exact HF].
        intros k c Hk. rewrite <- childAt_mapIndex. exact Hk.
      * intros (children' & HF' & ->).
        assert (Hl : mapLoop json2yaml val keys
                     = Ok (interleave (combine (map (scalarNode yamlStringScalar) keys)
                                               children'))).
        { apply mapLoop_Ok. exists children'. split; [| reflexivity].
          eapply Forall2_impl; [| exact HF'].
          intros k c Hk. rewrite childAt_mapIndex. exact Hk. }
        assert (Hl' : mapLoop json2yaml val keys
                      = Ok (interleave (combine (map (scalarNode yamlStringScalar) keys)
                                                children))).
        { apply mapLoop_Ok. eauto. }
        congruence.
    + split; [discriminate |].
      intros (children & HF & _).
      assert (Hl' : mapLoop json2yaml val keys
                    = Ok (interleave (combine (map (scalarNode yamlStringScalar) keys)
                                              children))).
      { apply mapLoop_Ok. exists children. split; [| reflexivity].
        eapply Forall2_impl; [| exact HF].
        intros k c Hk. rewrite childAt_mapIndex. exact Hk. }
      congruence.
    + split; [discriminate |].
      intros (children & HF & _).
      assert (Hl' : mapLoop json2yaml val keys
                    = Ok (interleave (combine (map (scalarNode yamlStringScalar) keys)
                                              children))).
      { apply mapLoop_Ok. exists children. split; [| reflexivity].
        eapply Forall2_impl; [| exact HF].
        intros k c Hk. rewrite childAt_mapIndex. exact Hk. }
      congruence.
  - intros val' Hp. rewrite !json2yaml_eq. simpl.
    rewrite (sortStrings_perm_invariant (map fst val') (map fst val))
      by (apply Permutation_map; symmetry; exact Hp).
    f_equal. apply mapLoop_ext. intros k.
    rewrite !childAt_mapIndex. f_equal. symmetry.
    apply mapIndex_perm; assumption.
Qed.

End ReverseFacts.


Lemma json2yaml_map_sorted_witness :
  NoDup (map fst [("b", ABool true); ("a", AInt Int64 (-3))])
  /\ @json2yaml exampleLibraries (AMap [("b", ABool true); ("a", AInt Int64 (-3))])
     = Ok (collectionNode yaml.MappingNode
             [scalar yamlStringScalar "a"; scalar yamlIntScalar "-3";
              scalar yamlStringScalar "b"; scalar yamlBoolScalar "true"]).
Proof.
  assert (Hnd : NoDup (map fst [("b", ABool true); ("a", AInt Int64 (-3))])).
  { repeat constructor; simpl; intuition discriminate. }
  split; [exact Hnd |].
  destruct (@json2yaml_map_sorted exampleLibraries _ Hnd) as (_ & _ & Hiff & _).
  apply Hiff.
  exists [scalar yamlIntScalar "-3"; scalar yamlBoolScalar "true"].
  split; [repeat constructor | reflexivity].
Defined.

(** * Properties of the key normaliser *)

Lemma format_key_type (k : any) :
  isKeyType k = true -> format k = Ok (canonicalKey k).
Proof.
  destruct k as [| | | i z | u z | | | | | | | | | | |]; try discriminate;
    intros _; try reflexivity; [destruct i | destruct u]; reflexivity.
Qed.

Lemma format_other_type (k : any) :
  isKeyType k = false -> format k = Err (keyTypeError k).
Proof. destruct k; try discriminate; reflexivity. Qed.

Lemma format_Ok (k : any) (s : string) :
  format k = Ok s <-> isKeyType k = true /\ s = canonicalKey k.
Proof.
  destruct (isKeyType k) eqn:Hk.
  - rewrite (format_key_type k Hk). split.
    + intros [= <-]. auto.
    + intros (_ & ->). reflexivity.
  - rewrite (format_other_type k Hk). split; [discriminate | intros ([=] & _)].
Qed.

Section NormaliseFacts.

Context `{Libraries}.

Section GenMapLoopFacts.

Variable transform : any -> result any.

Lemma genMapLoop_Ok (m : list (any * any)) (o : JSONMapSlice) :
  genMapLoop transform m = Ok o <->
  exists vals,
    Forall2 (fun kv v => isKeyType (fst kv) = true /\ transform (snd kv) = Ok v)
            m vals
    /\ o = normalisedEntries m vals.
Proof.
  revert o. induction m as [| [ke va] m IH]; intros o; simpl.
  - split.
    + intros [= <-]. exists []. split; [constructor | reflexivity].
    + intros (vals & HF & ->). inversion HF; subst. reflexivity.
  - destruct (isKeyType ke) eqn:Hk.
    + rewrite (format_key_type ke Hk).
      destruct (transform va) as [v | e |] eqn:Hv.
      * destruct (genMapLoop transform m) as [o' | e |] eqn:Hl.
        -- destruct (proj1 (IH o') eq_refl) as (vals & HF & ->).
           split.
           ++ intros [= <-]. exists (v :: vals). split; [| reflexivity].
              constructor; [simpl; auto | exact HF].
           ++ intros (vals' & HF' & ->).
              inversion HF' as [| p v' ps vs' [_ Hv'] HF'' E1 E2]; subst.
              simpl in Hv'. rewrite Hv in Hv'. injection Hv' as <-.
              assert (Hm : Ok (normalisedEntries m vals) = Ok (normalisedEntries m vs'))
                by (apply IH; eauto).
              injection Hm as Hm. unfold normalisedEntries in *. simpl.
              rewrite Hm. reflexivity.
        -- split; [discriminate |].
           intros (vals' & HF' & ->).
           inversion HF' as [| p v' ps vs' _ HF'' E1 E2]; subst.
           assert (Hm : Err e = Ok (normalisedEntries m vs')) by (apply IH; eauto).
           discriminate.
        -- split; [discriminate |].
           intros (vals' & HF' & ->).
           inversion HF' as [| p v' ps vs' _ HF'' E1 E2]; subst.
           assert (Hm : Panic = Ok (normalisedEntries m vs')) by (apply IH; eauto).
           discriminate.
      * split; [discriminate |].
        intros (vals' & HF' & _).
        inversion HF' as [| p v' ps vs' [_ Hv'] HF'' E1 E2]; subst.
        simpl in Hv'. congruence.
      * split; [discriminate |].
        intros (vals' & HF' & _).
        inversion HF' as [| p v' ps vs' [_ Hv'] HF'' E1 E2]; subst.
        simpl in Hv'. congruence.
    + rewrite (format_other_type ke Hk). split; [discriminate |].
      intros (vals' & HF' & _).
      inversion HF' as [| p v' ps vs' [Hk' _] HF'' E1 E2]; subst.
      simpl in Hk'. congruence.
Qed.

(** The loop stops at the first key of another type, the pairs before it
    having been normalised. *)
Lemma genMapLoop_bad_key (pre post : list (any * any)) (k v : any)
      (vals : list any) :
  isKeyType k = false ->
  Forall2 (fun kv x => isKeyType (fst kv) = true /\ transform (snd kv) = Ok x)
          pre vals ->
  genMapLoop transform (pre ++ (k, v) :: post) = Err (keyTypeError k).
Proof.
  intros Hk HF. induction HF as [| [ke va] x pre vals [Hke Hva] _ IH]; simpl.
  - rewrite (format_other_type k Hk). reflexivity.
  - simpl in Hke, Hva. rewrite (format_key_type ke Hke), Hva, IH. reflexivity.
Qed.

End GenMapLoopFacts.

(** C9: on a generic map, the key normaliser turns every key that is a
    string or a signed or unsigned integer of any width into its canonical
    text (the string, or the integer's base-10 digits) in the entry it
    makes, the entries following the order the map is visited in; and it
    fails with the key-type error as soon as it meets a key of any other
    type (a boolean, a float, ...), so that a map holding such a key is never
    normalised. *)
Theorem transformData_normalises_keys (m : list (any * any)) :
  (forall r,
      transformData (AGenMap m) = Ok r <->
      exists vals,
        Forall2 (fun kv v => isKeyType (fst kv) = true
                             /\ transformData (snd kv) = Ok v) m vals
        /\ r = AJSONMapSlice (normalisedEntries m vals))
  /\ (forall k, isKeyType k = true -> format k = Ok (canonicalKey k))
  /\ (forall pre k v post vals,
         m = pre ++ (k, v) :: post ->
         isKeyType k = false ->
         Forall2 (fun kv x => isKeyType (fst kv) = true
                              /\ transformData (snd kv) = Ok x) pre vals ->
         transformData (AGenMap m) = Err (keyTypeError k))
  /\ (Exists (fun kv => isKeyType (fst kv) = false) m ->
      forall r, transformData (AGenMap m) <> Ok r).
Proof.
  assert (Heq : transformData (AGenMap m)
                = wrapMapSlice (genMapLoop transformData m)) by reflexivity.
  split; [| split; [| split]].
  - intros r. rewrite Heq.
    destruct (genMapLoop transformData m) as [o | e |] eqn:Hl; simpl.
    + apply genMapLoop_Ok in Hl. destruct Hl as (vals & HF & ->).
      split.
      * intros [= <-]. eauto.
      * intros (vals' & HF' & ->).
        assert (Hl : genMapLoop transformData m = Ok (normalisedEntries m vals'))
          by (apply genMapLoop_Ok; eauto).
        assert (Hl' : genMapLoop transformData m = Ok (normalisedEntries m vals))
          by (apply genMapLoop_Ok; eauto).
        congruence.
    + split; [discriminate |].
      intros (vals & HF & _).
      assert (Hl' : genMapLoop transformData m = Ok (normalisedEntries m vals))
        by (apply genMapLoop_Ok; eauto).
      congruence.
    + split; [discriminate |].
      intros (vals & HF & _).
      assert (Hl' : genMapLoop transformData m = Ok (normalisedEntries m vals))
        by (apply genMapLoop_Ok; eauto).
      congruence.
  - apply format_key_type.
  - intros pre k v post vals -> Hk HF. rewrite Heq.
    rewrite (genMapLoop_bad_key transformData pre post k v vals Hk HF).
    reflexivity.
  - intros Hex r Hr. rewrite Heq in Hr.
    destruct (genMapLoop transformData m) as [o | e |] eqn:Hl; try discriminate.
    apply genMapLoop_Ok in Hl. destruct Hl as (vals & HF & _).
    clear Hr Heq. induction HF as [| kv x m vals [Hk _] _ IH].
    + inversion Hex.
    + inversion Hex as [? ? Hb | ? ? Hb]; subst; [congruence | auto].
Qed.

End NormaliseFacts.

Lemma transformData_normalises_keys_witness :
  isKeyType (ABool true) = false
  /\ @transformData exampleLibraries
       (AGenMap [(AInt Int8 7, AString "x"); (ABool true, Nil); (AString "k", Nil)])
     = Err (keyTypeError (ABool true)).
Proof.
  split; [reflexivity |].
  destruct (@transformData_normalises_keys exampleLibraries
              [(AInt Int8 7, AString "x"); (ABool true, Nil); (AString "k", Nil)])
    as (_ & _ & Hstop & _).
  apply (Hstop [(AInt Int8 7, AString "x")] (ABool true) Nil [(AString "k", Nil)]
               [AString "x"] eq_refl eq_refl).
  repeat constructor.
Defined.

(** * Properties of the JSON encoding and decoding *)

(** ** The lexer reads on or stops

    Every reading method leaves the lexer with no more to hand out than
    before, and an error, once met, stays. *)

Lemma weight_error (l : Lexer) : LexerOk l = false -> weight l = 0%nat.
Proof. unfold weight. intros ->. reflexivity. Qed.

Lemma lexError_not_Ok (msg : string) (l : Lexer) : LexerOk (lexError msg l) = false.
Proof.
  unfold lexError, LexerOk. destruct (fatalError l) eqn:He; simpl.
  - rewrite He. reflexivity.
  - reflexivity.
Qed.

Lemma errSyntax_not_Ok (r : Lexer) : LexerOk (errSyntax r) = false.
Proof. apply lexError_not_Ok. Qed.

Lemma noSepWanted_error (r : Lexer) :
  LexerOk r = false -> LexerOk (noSepWanted r) = false.
Proof.
  unfold noSepWanted. destruct (wantSep r); [| auto].
  intros _. apply errSyntax_not_Ok.
Qed.

(** An error, once met, stays. *)
Lemma scan_error (data : list lexeme) (r : Lexer) :
  LexerOk r = false -> LexerOk (scan data r) = false.
Proof.
  revert r. induction data as [| x data IH]; intros r Hr; [reflexivity |].
  destruct x as [c | c | s | n | b |]; simpl;
    try (apply (noSepWanted_error r Hr)).
  - destruct (Ascii.eqb c "{" || Ascii.eqb c "[").
    + apply (noSepWanted_error r Hr).
    + destruct (Ascii.eqb c "}" || Ascii.eqb c "]").
      * destruct (negb (firstElement r) && negb (isSep (wantSep r) ","));
          [apply errSyntax_not_Ok | exact Hr].
      * apply errSyntax_not_Ok.
  - destruct (isSep (wantSep r) c); apply IH; [exact Hr | apply errSyntax_not_Ok].
Qed.

Lemma scan_token (data : list lexeme) (r : Lexer) :
  LexerOk (scan data r) = true ->
  tok (scan data r) <> Undef
  /\ (List.length (Data (scan data r)) < List.length data)%nat.
Proof.
  revert r. induction data as [| x data IH]; intros r; [discriminate |].
  destruct x as [c | c | s | n | b |]; simpl.
  - destruct (Ascii.eqb c "{" || Ascii.eqb c "[").
    + intros _. simpl. split; [discriminate | lia].
    + destruct (Ascii.eqb c "}" || Ascii.eqb c "]").
      * intros _. simpl. split; [discriminate | lia].
      * rewrite errSyntax_not_Ok. discriminate.
  - destruct (isSep (wantSep r) c).
    + intros Hok. destruct (IH _ Hok). split; [assumption | lia].
    + intros Hok. rewrite scan_error in Hok; [discriminate |].
      apply errSyntax_not_Ok.
  - intros _. simpl. split; [discriminate | lia].
  - intros _. simpl. split; [discriminate | lia].
  - intros _. simpl. split; [discriminate | lia].
  - intros _. simpl. split; [discriminate | lia].
Qed.

Lemma ensureToken_pending (l : Lexer) :
  LexerOk (ensureToken l) = true -> tok (ensureToken l) <> Undef.
Proof.
  unfold ensureToken. destruct (tok l) eqn:Ht; try (intros _; rewrite Ht; discriminate).
  destruct (LexerOk l) eqn:Hok; [| congruence].
  unfold FetchToken. intros H. apply scan_token. exact H.
Qed.

Lemma weight_ensureToken (l : Lexer) : (weight (ensureToken l) <= weight l)%nat.
Proof.
  unfold ensureToken. destruct (tok l) eqn:Ht; try lia.
  destruct (LexerOk l) eqn:Hok; [| lia].
  unfold FetchToken.
  set (r := mkLexer (Data l) Undef (firstElement l) (wantSep l) (fatalError l)).
  unfold weight at 1. destruct (LexerOk (scan (Data l) r)) eqn:Hs; [| lia].
  destruct (scan_token _ _ Hs) as [Hp Hlen].
  unfold weight. rewrite Hok. unfold pending. rewrite Ht.
  destruct (tok (scan (Data l) r)); lia.
Qed.

Lemma weight_consume (l : Lexer) : (weight (consume l) <= weight l)%nat.
Proof.
  unfold weight, consume, LexerOk, pending. simpl.
  destruct (fatalError l); [lia |]. destruct (tok l); lia.
Qed.

Lemma weight_consume_pending (l : Lexer) :
  LexerOk l = true -> tok l <> Undef -> (weight (consume l) + 1 = weight l)%nat.
Proof.
  unfold weight, consume, LexerOk, pending. simpl.
  destruct (fatalError l); [discriminate |]. intros _.
  destruct (tok l); [contradiction | | | | |]; lia.
Qed.

Lemma weight_WantColon (l : Lexer) : weight (WantColon l) = weight l.
Proof. reflexivity. Qed.

Lemma weight_WantComma (l : Lexer) : weight (WantComma l) = weight l.
Proof. reflexivity. Qed.

Lemma weight_lexError (msg : string) (l : Lexer) : weight (lexError msg l) = 0%nat.
Proof. apply weight_error. apply lexError_not_Ok. Qed.

Lemma weight_Skip (l : Lexer) : (weight (Skip l) <= weight l)%nat.
Proof.
  unfold Skip. pose proof (weight_consume (ensureToken l)).
  pose proof (weight_ensureToken l). lia.
Qed.

(** [Delim] takes the pending token away, or ends in error. *)
Lemma weight_Delim (c : ascii) (l : Lexer) :
  (weight (Delim c (snd (IsNull l))) + 1 <= weight l \/ weight (Delim c (snd (IsNull l))) = 0)%nat.
Proof.
  unfold IsNull, Delim. simpl.
  assert (He : ensureToken (ensureToken l) = ensureToken l).
  { unfold ensureToken at 1.
    destruct (tok (ensureToken l)) eqn:Ht; try reflexivity.
    destruct (LexerOk (ensureToken l)) eqn:Hok; [| reflexivity].
    exfalso. exact (ensureToken_pending l Hok Ht). }
  rewrite He.
  destruct (LexerOk (ensureToken l)) eqn:Hok; simpl.
  - destruct (isSep (delimValue (ensureToken l)) c); simpl.
    + left. pose proof (weight_consume_pending _ Hok (ensureToken_pending l Hok)).
      pose proof (weight_ensureToken l). lia.
    + right. apply weight_lexError.
  - right. apply weight_lexError.
Qed.

Lemma IsDelim_false (c : ascii) (l : Lexer) :
  fst (IsDelim c l) = false ->
  LexerOk (snd (IsDelim c l)) = true /\ tok (snd (IsDelim c l)) <> Undef
  /\ (1 <= weight (snd (IsDelim c l)) <= weight l)%nat.
Proof.
  unfold IsDelim. simpl. intros Hf.
  destruct (LexerOk (ensureToken l)) eqn:Hok; [| discriminate].
  pose proof (ensureToken_pending l Hok) as Hp.
  split; [reflexivity |]. split; [exact Hp |].
  pose proof (weight_ensureToken l).
  split; [| assumption].
  unfold weight, pending. rewrite Hok. destruct (tok (ensureToken l)); [contradiction | | | | |]; lia.
Qed.

Lemma IsDelim_weight (c : ascii) (l : Lexer) :
  (weight (snd (IsDelim c l)) <= weight l)%nat.
Proof. unfold IsDelim. simpl. apply weight_ensureToken. Qed.

Lemma ensureToken_idem (l : Lexer) : ensureToken (ensureToken l) = ensureToken l.
Proof.
  unfold ensureToken at 1.
  destruct (tok (ensureToken l)) eqn:Ht; try reflexivity.
  destruct (LexerOk (ensureToken l)) eqn:Hok; [| reflexivity].
  exfalso. exact (ensureToken_pending l Hok Ht).
Qed.

Lemma ensureToken_fixed (l : Lexer) : tok l <> Undef -> ensureToken l = l.
Proof. unfold ensureToken. destruct (tok l); [contradiction | | | | |]; reflexivity. Qed.

(** [UnsafeString] on a lexer with something left takes a token away, or
    ends in error. *)
Lemma weight_UnsafeString (l : Lexer) :
  (weight (snd (UnsafeString l)) + 1 <= weight l
   \/ weight (snd (UnsafeString l)) = 0)%nat.
Proof.
  unfold UnsafeString.
  destruct (tok (ensureToken l)) eqn:Ht; simpl;
    try (right; apply weight_lexError).
  destruct (LexerOk (ensureToken l)) eqn:Hok; simpl.
  - left. assert (Hp : tok (ensureToken l) <> Undef) by (rewrite Ht; discriminate).
    pose proof (weight_consume_pending _ Hok Hp).
    pose proof (weight_ensureToken l). lia.
  - right. apply weight_error. exact Hok.
Qed.

Lemma weight_Interface (l : Lexer) : (weight (snd (Interface l)) <= weight l)%nat.
Proof.
  unfold Interface.
  pose proof (weight_ensureToken l) as He.
  pose proof (weight_consume (ensureToken l)) as Hc.
  destruct (LexerOk (ensureToken l)) eqn:Hok; simpl; [| assumption].
  destruct (tok (ensureToken l)); simpl; try lia;
    unfold errSyntax; rewrite weight_lexError; lia.
Qed.

Section JSONFacts.

Context `{Libraries}.

Lemma WriteJSON_scalar (v : any) :
  isJSONScalar v = true -> WriteJSON v = Ok [scalarLexeme v].
Proof.
  destruct v; try discriminate; try reflexivity.
  simpl. intros ->. reflexivity.
Qed.

Lemma itemMarshal_scalar (it : JSONMapItem) (buf : list lexeme) :
  isJSONScalar (Value it) = true ->
  itemMarshalEasyJSON WriteJSON it (mkWriter buf None)
  = mkWriter (buf ++ [LString (Key it); LSep ":"; scalarLexeme (Value it)]) None.
Proof.
  intros Hit. unfold itemMarshalEasyJSON. rewrite (WriteJSON_scalar _ Hit).
  unfold Raw, RawByte, WriteString. simpl. rewrite <- !app_assoc. reflexivity.
Qed.

(** The encoder writes a document of scalars as the text of its entries,
    in stored order. *)
Lemma marshalItems_scalars (doc : JSONMapSlice) (buf : list lexeme) :
  Forall (fun it => isJSONScalar (Value it) = true) doc ->
  marshalItems WriteJSON doc (mkWriter buf None)
  = mkWriter (buf ++ entriesText doc) None.
Proof.
  intros Hd. revert buf. induction Hd as [| it rest Hit Hrest IH]; intros buf.
  - simpl. rewrite app_nil_r. reflexivity.
  - cbn [marshalItems]. rewrite (itemMarshal_scalar it buf Hit).
    destruct rest as [| it' rest'].
    + reflexivity.
    + unfold RawByte at 1. cbn [Buffer Error Ascii.eqb Bool.eqb orb].
      rewrite IH. cbn [entriesText]. rewrite <- !app_assoc. reflexivity.
Qed.

Lemma MarshalJSON_scalars (doc : JSONMapSlice) :
  Forall (fun it => isJSONScalar (Value it) = true) doc ->
  MarshalJSON doc = Ok (documentText doc).
Proof.
  intros Hd. unfold MarshalJSON, MarshalEasyJSON, mapSliceMarshalEasyJSON.
  change (RawByte "{" newWriter) with (mkWriter [LDelim "{"] None).
  rewrite (marshalItems_scalars doc _ Hd). reflexivity.
Qed.

Lemma IsDelim_start (it : JSONMapItem) (rest : JSONMapSlice) :
  IsDelim "}" (lexerAtStart (it :: rest)) = (false, lexerAtKey true it rest).
Proof. reflexivity. Qed.

Lemma IsDelim_after (it : JSONMapItem) (rest : JSONMapSlice) :
  IsDelim "}" (lexerAfterEntry (it :: rest)) = (false, lexerAtKey false it rest).
Proof. reflexivity. Qed.

(** Decoding one entry of scalar payload: the key, then the value read by
    [Interface]. *)
Lemma itemUnmarshal_scalar (fuel : nat) (s it : JSONMapItem) (rest : JSONMapSlice)
      (first : bool) :
  (0 < fuel)%nat ->
  isJSONScalar (Value it) = true ->
  itemUnmarshal fuel s (lexerAtKey first it rest)
  = Some (mkItem (Key it) (decodedScalar (Value it)), lexerAfterEntry rest).
Proof.
  intros Hf. destruct fuel as [| fuel]; [inversion Hf |].
  destruct it as [k v]. destruct v; try discriminate; intros _; reflexivity.
Qed.

Lemma mapSliceUnmarshalLoop_S (fuel : nat) (result : JSONMapSlice) (l : Lexer) :
  mapSliceUnmarshalLoop (S fuel) result l =
  let '(closing, l) := IsDelim "}" l in
  if closing then Some (result, l)
  else
    match itemUnmarshal fuel (mkItem "" Nil) l with
    | None => None
    | Some (mi, l) => mapSliceUnmarshalLoop fuel (result ++ [mi]) l
    end.
Proof. reflexivity. Qed.

Lemma mapSliceUnmarshalLoop_after (rest : JSONMapSlice) :
  Forall (fun it => isJSONScalar (Value it) = true) rest ->
  forall (fuel : nat) (acc : JSONMapSlice),
    (List.length rest < fuel)%nat ->
    exists l,
      mapSliceUnmarshalLoop fuel acc (lexerAfterEntry rest)
      = Some (acc ++ decodedEntries rest, l)
      /\ fatalError l = None.
Proof.
  induction 1 as [| it rest Hit _ IH]; intros fuel acc Hf.
  - destruct fuel as [| fuel]; [inversion Hf |].
    eexists. split; [| shelve]. simpl. rewrite app_nil_r. reflexivity.
    Unshelve. reflexivity.
  - destruct fuel as [| fuel]; simpl in Hf; [lia |].
    rewrite mapSliceUnmarshalLoop_S, IsDelim_after. cbv beta iota zeta.
    rewrite (itemUnmarshal_scalar fuel _ it rest false) by (assumption || lia).
    destruct (IH fuel (acc ++ [mkItem (Key it) (decodedScalar (Value it))]))
      as (l & Hl & Hok); [lia |].
    exists l. split; [| exact Hok].
    rewrite Hl. simpl. rewrite <- app_assoc. reflexivity.
Qed.

Lemma mapSliceUnmarshalLoop_start (doc : JSONMapSlice) :
  Forall (fun it => isJSONScalar (Value it) = true) doc ->
  forall fuel : nat,
    (List.length doc < fuel)%nat ->
    exists l,
      mapSliceUnmarshalLoop fuel [] (lexerAtStart doc)
      = Some (decodedEntries doc, l)
      /\ fatalError l = None.
Proof.
  intros Hd fuel Hf. destruct Hd as [| it rest Hit Hrest].
  - destruct fuel as [| fuel]; [inversion Hf |].
    eexists. split; [reflexivity | reflexivity].
  - destruct fuel as [| fuel]; simpl in Hf; [lia |].
    rewrite mapSliceUnmarshalLoop_S, IsDelim_start. cbv beta iota zeta.
    rewrite (itemUnmarshal_scalar fuel _ it rest true) by (assumption || lia).
    destruct (mapSliceUnmarshalLoop_after rest Hrest fuel
                ([] ++ [mkItem (Key it) (decodedScalar (Value it))]))
      as (l & Hl & Hok); [lia |].
    exists l. split; [| exact Hok]. rewrite Hl. reflexivity.
Qed.

Lemma entriesText_length (doc : JSONMapSlice) :
  (List.length doc <= List.length (entriesText doc))%nat.
Proof.
  induction doc as [| it [| it' rest] IH]; simpl in *; lia.
Qed.

Lemma mapSliceUnmarshal_S (fuel : nat) (s : JSONMapSlice) (l : Lexer) :
  mapSliceUnmarshal (S fuel) s l =
  let '(null, l) := IsNull l in
  if null then Some (s, Skip l)
  else mapSliceUnmarshalLoop fuel [] (Delim "{" l).
Proof. reflexivity. Qed.

Lemma itemUnmarshal_S (fuel : nat) (s : JSONMapItem) (l : Lexer) :
  itemUnmarshal (S fuel) s l =
  let '(key, l) := UnsafeString l in
  let l := WantColon l in
  let '(object, l) := IsDelim "{" l in
  let decoded :=
    if object then
      match mapSliceUnmarshal fuel [] l with
      | None => None
      | Some (inner, l) => Some (innerValue inner, l)
      end
    else
      let '(array, l) := IsDelim "[" l in
      if array then
        let '(element, l) := unmarshalSliceItem l in
        Some (AJSONSliceItem element, l)
      else Some (Interface l)
  in
  match decoded with
  | None => None
  | Some (value, l) =>
      let l := WantComma l in
      if negb (LexerOk l) then Some (s, l)
      else Some (mkItem key value, l)
  end.
Proof. reflexivity. Qed.

(** The depth bound of [UnmarshalJSON] is never used up, the array
    decoder being one that reads on (it hands back no more than it was
    given). *)
Section DecoderTotal.

Hypothesis sliceItem_reads :
  forall l, (weight (snd (unmarshalSliceItem l)) <= weight l)%nat.

Lemma decoder_total (fuel : nat) :
  (forall s l, (3 * weight l + 2 <= fuel)%nat ->
     exists s' l', mapSliceUnmarshal fuel s l = Some (s', l')
                   /\ (weight l' <= weight l)%nat)
  /\ (forall acc l, (3 * weight l + 1 <= fuel)%nat ->
     exists s' l', mapSliceUnmarshalLoop fuel acc l = Some (s', l')
                   /\ (weight l' <= weight l)%nat)
  /\ (forall s l, (1 <= weight l)%nat -> (3 * weight l <= fuel)%nat ->
     exists it l', itemUnmarshal fuel s l = Some (it, l')
                   /\ (weight l' + 1 <= weight l)%nat).
Proof.
  induction fuel as [| fuel (IHs & IHl & IHi)].
  - repeat split; intros; lia.
  - split; [| split].
    + intros s l Hf. rewrite mapSliceUnmarshal_S.
      pose proof (weight_Delim "{" l) as Hd.
      pose proof (weight_Skip l) as Hs.
      destruct (IsNull l) as [null l1] eqn:Hn.
      assert (Hl1 : l1 = ensureToken l) by (unfold IsNull in Hn; congruence).
      cbn [snd] in Hd. destruct null.
      * exists s, (Skip l1). split; [reflexivity |].
        subst l1. unfold Skip in *. rewrite ensureToken_idem. exact Hs.
      * destruct (IHl [] (Delim "{" l1)) as (s' & l' & Hl & Hw); [lia |].
        exists s', l'. split; [exact Hl | lia].
    + intros acc l Hf. rewrite mapSliceUnmarshalLoop_S.
      pose proof (IsDelim_false "}" l) as Hfalse.
      pose proof (IsDelim_weight "}" l) as Hw1.
      destruct (IsDelim "}" l) as [closing l1] eqn:Hc. cbn [fst snd] in *.
      destruct closing.
      * exists acc, l1. split; [reflexivity | exact Hw1].
      * destruct (Hfalse eq_refl) as (_ & _ & Hge & _).
        destruct (IHi (mkItem "" Nil) l1) as (mi & l2 & Hi & Hw2); [lia | lia |].
        rewrite Hi.
        destruct (IHl (acc ++ [mi]) l2) as (s' & l' & Hl & Hw); [lia |].
        exists s', l'. split; [exact Hl | lia].
    + intros s l Hge Hf. rewrite itemUnmarshal_S.
      pose proof (weight_UnsafeString l) as Hu.
      destruct (UnsafeString l) as [key l1] eqn:Hk. cbn [snd] in Hu.
      cbv zeta.
      pose proof (IsDelim_weight "{" (WantColon l1)) as Hw3.
      rewrite weight_WantColon in Hw3.
      destruct (IsDelim "{" (WantColon l1)) as [object l3] eqn:Ho. cbn [snd] in Hw3.
      assert (Hfin : forall value l4,
                 (weight l4 <= weight l3)%nat ->
                 exists it l',
                   (let l5 := WantComma l4 in
                    if negb (LexerOk l5) then Some (s, l5)
                    else Some (mkItem key value, l5)) = Some (it, l')
                   /\ (weight l' + 1 <= weight l)%nat).
      { intros value l4 Hw4. cbv zeta.
        destruct (negb (LexerOk (WantComma l4))); eexists; eexists;
          (split; [reflexivity | rewrite weight_WantComma; lia]). }
      destruct object.
      * destruct (IHs [] l3) as (inner & l4 & Hs & Hw4); [lia |].
        rewrite Hs. apply Hfin. exact Hw4.
      * pose proof (IsDelim_weight "[" l3) as Hw4.
        destruct (IsDelim "[" l3) as [array l4] eqn:Ha. cbn [snd] in Hw4.
        destruct array.
        -- pose proof (sliceItem_reads l4) as Hw5.
           destruct (unmarshalSliceItem l4) as [element l5]. cbn [snd] in Hw5.
           apply Hfin. lia.
        -- pose proof (weight_Interface l4) as Hw5.
           destruct (Interface l4) as [value l5]. cbn [snd] in Hw5.
           apply Hfin. lia.
Qed.

Lemma UnmarshalJSON_total (s : JSONMapSlice) (data : list lexeme) :
  UnmarshalJSON s data <> None.
Proof.
  unfold UnmarshalJSON.
  destruct (decoder_total (3 * List.length data + 2)) as (Hs & _ & _).
  destruct (Hs s (newLexer data)) as (s' & l' & Heq & _).
  { change (weight (newLexer data)) with (List.length data + 0)%nat. lia. }
  rewrite Heq. discriminate.
Qed.

End DecoderTotal.

(** C1, amended: for a document whose payloads are scalars (strings,
    integers, finite floats, booleans, nulls), [MarshalJSON] succeeds and
    [UnmarshalJSON] of its output returns, without error, a document with
    the same keys in the same order; strings, floats, booleans and nulls
    come back as they were, and an integer comes back as the [float64]
    nearest to it. *)
Theorem MarshalJSON_UnmarshalJSON_scalars (doc s : JSONMapSlice) :
  Forall (fun it => isJSONScalar (Value it) = true) doc ->
  exists data,
    MarshalJSON doc = Ok data
    /\ UnmarshalJSON s data = Some (decodedEntries doc, None)
    /\ map Key (decodedEntries doc) = map Key doc
    /\ Forall2 (fun it it' =>
                  match Value it with
                  | AInt _ z | AUint _ z =>
                      Value it' = AFloat64 (binary_normalize 53 1024 z 0 false)
                  | v => Value it' = v
                  end) doc (decodedEntries doc).
Proof.
  intros Hd. exists (documentText doc).
  split; [apply MarshalJSON_scalars; exact Hd |].
  split; [| split].
  - unfold UnmarshalJSON.
    replace (3 * List.length (documentText doc) + 2)%nat
      with (S (S (3 * List.length (documentText doc)))) by lia.
    destruct (mapSliceUnmarshalLoop_start doc Hd
                (S (3 * List.length (documentText doc))))
      as (l & Hl & Hok).
    { unfold documentText. simpl List.length. rewrite length_app.
      pose proof (entriesText_length doc). lia. }
    change (mapSliceUnmarshal (S (S (3 * List.length (documentText doc)))) s
                              (newLexer (documentText doc)))
      with (mapSliceUnmarshalLoop (S (3 * List.length (documentText doc))) []
                                  (lexerAtStart doc)).
    rewrite Hl, Hok. reflexivity.
  - unfold decodedEntries. rewrite map_map. reflexivity.
  - unfold decodedEntries. clear Hd.
    induction doc as [| [k v] doc IH]; simpl; constructor; [| exact IH].
    destruct v; reflexivity.
Qed.

(** The decoder returns from a nested object with the closing brace still
    pending, and the enclosing loop takes that brace for its own: the
    entries after a nested document are not read, and no error is
    reported. *)
Lemma UnmarshalJSON_nested_then_more :
  UnmarshalJSON []
    [LDelim "{"; LString "a"; LSep ":";
     LDelim "{"; LString "b"; LSep ":"; LBool true; LDelim "}";
     LSep ","; LString "c"; LSep ":"; LString "x"; LDelim "}"]
  = Some ([mkItem "a" (AJSONMapSlice [mkItem "b" (ABool true)])], None).
Proof. reflexivity. Qed.

End JSONFacts.

Lemma MarshalJSON_UnmarshalJSON_scalars_witness :
  Forall (fun it => isJSONScalar (Value it) = true)
         [mkItem "b" (AString "x"); mkItem "a" (ABool true); mkItem "b" Nil]
  /\ exists data,
      MarshalJSON
        [mkItem "b" (AString "x"); mkItem "a" (ABool true); mkItem "b" Nil]
      = Ok data
      /\ @UnmarshalJSON exampleLibraries [] data
         = Some ([mkItem "b" (AString "x"); mkItem "a" (ABool true); mkItem "b" Nil],
                 None).
Proof.
  assert (Hd : Forall (fun it => isJSONScalar (Value it) = true)
                      [mkItem "b" (AString "x"); mkItem "a" (ABool true);
                       mkItem "b" Nil])
    by (repeat constructor).
  split; [exact Hd |].
  destruct (@MarshalJSON_UnmarshalJSON_scalars exampleLibraries _ [] Hd)
    as (data & Hm & Hu & _).
  exists data. split; [exact Hm | exact Hu].
Defined.

Lemma integer_round_trip_counterexample :
  ~ @roundTripsExactly exampleLibraries [mkItem "a" (AInt Int64 1)].
Proof.
  intros (data & Hm & Hu). vm_compute in Hm. injection Hm as <-.
  vm_compute in Hu. discriminate.
Qed.


(** * Further properties *)

(** ** Decimal text *)









(** [ParseInt] yields only integers of the [int64] range. *)
Lemma ParseInt_range (s : string) (z : Z) :
  ParseInt s = Ok z -> - 2 ^ 63 <= z < 2 ^ 63.
Proof.
  unfold ParseInt. destruct s as [| c r]; [discriminate |].
  set (neg := Ascii.eqb c "-").
  destruct (ParseUint (if Ascii.eqb c "+" || neg then r else String c r))
    as [un | |] eqn:Hu; try discriminate.
  assert (Hun : 0 <= un).
  { unfold ParseUint in Hu.
    destruct (if Ascii.eqb c "+" || neg then r else String c r) as [| c' r'];
      [discriminate |].
    destruct (digits_value (String c' r') 0) as [v |] eqn:Hd; [| discriminate].
    destruct (v <? 2 ^ 64); [| discriminate]. injection Hu as <-.
    clear - Hd.
    assert (Hg : forall s acc v, 0 <= acc -> digits_value s acc = Some v -> 0 <= v).
    { induction s as [| x s IH]; intros acc v0 Ha; cbn [digits_value].
      - intros [= <-]. exact Ha.
      - destruct (is_digit x) eqn:Hx; [| discriminate].
        apply IH. unfold is_digit in Hx. cbv zeta in Hx. unfold digit_value.
        apply andb_true_iff in Hx. destruct Hx as [Hx _].
        apply Z.leb_le in Hx. lia. }
    eapply Hg; [| exact Hd]. lia. }
  destruct neg; cbn [negb andb].
  - destruct (Z.ltb_spec (2 ^ 63) un); [discriminate |].
    intros [= <-]. lia.
  - destruct (Z.leb_spec (2 ^ 63) un); [discriminate |].
    intros [= <-]. lia.
Qed.



(** ** The walk yields values of the document model *)

(** Induction on a node, with the property at hand for its children and
    for the node its alias points to. *)
Lemma Node_nested_ind (P : Node -> Prop) :
  (forall k t v c a,
      Forall P c -> (forall target, a = Some target -> P target) ->
      P (yaml.mkNode k t v c a)) ->
  forall n, P n.
Proof.
  intros Hstep. fix IH 1. intros [k t v c a]. apply Hstep.
  - induction c as [| x c IHc]; constructor; [apply IH | exact IHc].
  - destruct a as [target |].
    + pose proof (IH target) as Ht. intros t' [= <-]. exact Ht.
    + discriminate.
Qed.

Section WalkMore.

Context `{Libraries}.

Lemma sequenceLoop_Ok (walk : Node -> result any) (content : list Node)
      (s : list any) :
  sequenceLoop walk content = Ok s <->
  Forall2 (fun n v => walk n = Ok v) content s.
Proof.
  revert s. induction content as [| c content IH]; intros s; simpl.
  - split.
    + intros [= <-]. constructor.
    + intros HF. inversion HF. reflexivity.
  - destruct (walk c) as [v | e |] eqn:Hv.
    + destruct (sequenceLoop walk content) as [s' | e |] eqn:Hl.
      * split.
        -- intros [= <-]. constructor; [exact Hv | apply IH; reflexivity].
        -- intros HF. inversion HF as [| ? v' ? s'' Hv' HF']; subst.
           apply IH in HF'. congruence.
      * split; [discriminate |].
        intros HF. inversion HF as [| ? v' ? s'' Hv' HF']; subst.
        apply IH in HF'. discriminate.
      * split; [discriminate |].
        intros HF. inversion HF as [| ? v' ? s'' Hv' HF']; subst.
        apply IH in HF'. discriminate.
    + split; [discriminate |].
      intros HF. inversion HF; subst. congruence.
    + split; [discriminate |].
      intros HF. inversion HF; subst. congruence.
Qed.

(** X1: [yamlSequence] succeeds exactly when every child is walked, and
    then yields the list of the walked values, one per child and in the
    children's order; a sequence without children yields the empty list,
    not nil. *)
Theorem yamlSequence_in_order (node : Node) :
  (forall r, yamlSequence node = Ok r <->
             exists vals,
               Forall2 (fun n v => yamlNode n = Ok v) (yaml.Content node) vals
               /\ r = ASlice vals)
  /\ (yaml.Content node = [] -> yamlSequence node = Ok (ASlice [])).
Proof.
  unfold yamlSequence. split.
  - intros r.
    destruct (sequenceLoop yamlNode (yaml.Content node)) as [s | e |] eqn:Hl;
      simpl.
    + apply sequenceLoop_Ok in Hl. split.
      * intros [= <-]. eauto.
      * intros (vals & HF & ->). apply sequenceLoop_Ok in HF.
        apply sequenceLoop_Ok in Hl. congruence.
    + split; [discriminate |].
      intros (vals & HF & _). apply sequenceLoop_Ok in HF. congruence.
    + split; [discriminate |].
      intros (vals & HF & _). apply sequenceLoop_Ok in HF. congruence.
  - intros ->. reflexivity.
Qed.

Lemma yamlScalar_document_value (node : Node) (v : any) :
  yamlScalar node = Ok v -> isDocumentValue v = true.
Proof.
  unfold yamlScalar.
  destruct (String.eqb (LongTag node) yamlStringScalar); [intros [= <-]; reflexivity |].
  destruct (String.eqb (LongTag node) yamlBoolScalar).
  { destruct (ParseBool (yaml.Value node)); try discriminate.
    intros [= <-]. reflexivity. }
  destruct (String.eqb (LongTag node) yamlIntScalar).
  { destruct (ParseInt (yaml.Value node)) as [i | |] eqn:Hi; try discriminate.
    intros [= <-]. apply ParseInt_range in Hi. simpl.
    apply andb_true_iff. split; [apply Z.leb_le | apply Z.ltb_lt]; lia. }
  destruct (String.eqb (LongTag node) yamlFloatScalar).
  { destruct (ParseFloat (yaml.Value node)); try discriminate.
    intros [= <-]. reflexivity. }
  destruct (String.eqb (LongTag node) yamlTimestamp); [intros [= <-]; reflexivity |].
  destruct (String.eqb (LongTag node) yamlNull); [intros [= <-]; reflexivity |].
  discriminate.
Qed.

(** The walk yields document values only, by induction on the node. *)
Lemma yamlNode_walks_document_value (root : Node) (v : any) :
  yamlNode root = Ok v -> isDocumentValue v = true.
Proof.
  revert v. induction root as [k t x c a IHc IHa] using Node_nested_ind.
  intros v. rewrite yamlNode_eq. cbv zeta.
  unfold yamlDocument, yamlSequence, yamlMapping. cbn [yaml.Kind_ yaml.Content yaml.Alias].
  destruct (k =? yaml.DocumentNode).
  { destruct c as [| child [| c2 c']]; try discriminate.
    inversion IHc; subst. auto. }
  destruct (k =? yaml.SequenceNode).
  { destruct (sequenceLoop yamlNode c) as [s | |] eqn:Hl; try discriminate.
    intros [= <-]. apply sequenceLoop_Ok in Hl. simpl.
    apply forallb_forall. intros y Hy.
    clear - IHc Hl Hy. induction Hl as [| n v c s Hv _ IH]; [contradiction |].
    inversion IHc; subst. destruct Hy as [<- | Hy]; eauto. }
  destruct (k =? yaml.MappingNode).
  { destruct (mappingLoop yamlNode c) as [m | |] eqn:Hl; try discriminate.
    intros [= <-]. simpl. clear - IHc Hl.
    revert m Hl.
    assert (Hgen : forall n (c : list Node),
               (List.length c <= n)%nat -> Forall
                 (fun n : Node => forall v, yamlNode n = Ok v -> isDocumentValue v = true) c ->
               forall m, mappingLoop yamlNode c = Ok m ->
               forallb (fun it => match it with mkItem _ x => isDocumentValue x end) m = true).
    { induction n as [| n IHn]; intros c0 Hlen HF m.
      - destruct c0; [| simpl in Hlen; lia]. intros [= <-]. reflexivity.
      - destruct c0 as [| key [| vn c1]]; simpl.
        + intros [= <-]. reflexivity.
        + destruct (yamlStringScalarC key); discriminate.
        + destruct (yamlStringScalarC key); try discriminate.
          destruct (yamlNode vn) as [v | |] eqn:Hv; try discriminate.
          destruct (mappingLoop yamlNode c1) as [m' | |] eqn:Hm; try discriminate.
          intros [= <-]. simpl.
          inversion HF as [| ? ? _ HF1]; subst.
          inversion HF1 as [| ? ? Hvn HF2]; subst.
          rewrite (Hvn _ Hv). simpl.
          apply (IHn c1); [simpl in Hlen; lia | exact HF2 | exact Hm]. }
    intros m Hl. exact (Hgen (List.length c) c (le_n _) IHc m Hl). }
  destruct (k =? yaml.ScalarNode); [apply yamlScalar_document_value |].
  destruct (k =? yaml.AliasNode); [| discriminate].
  destruct a as [target |]; [| discriminate].
  apply (IHa target eq_refl).
Qed.

(** X2: whatever [yamlNode] returns is a value of the Ordered Document
    Model: an ordered document, a list, a string, a boolean, an [int64]
    within [-2^63 .. 2^63-1], a [float64] or nil, and so are the values
    nested in it; it never returns a map, a node or an integer of another
    type. *)
Theorem yamlNode_document_value (root : Node) (v : any) :
  yamlNode root = Ok v -> isDocumentValue v = true.
Proof. exact (yamlNode_walks_document_value root v). Qed.

(** X3: a scalar tagged null walks to nil whatever its text; a scalar
    tagged string or timestamp walks to its text, unchanged; a scalar
    whose tag is none of the six known tags is an error. *)
Theorem yamlScalar_by_tag (node : Node) :
  (LongTag node = yamlNull -> yamlScalar node = Ok Nil)
  /\ (LongTag node = yamlStringScalar \/ LongTag node = yamlTimestamp ->
      yamlScalar node = Ok (AString (yaml.Value node)))
  /\ (~ In (LongTag node)
           [yamlStringScalar; yamlBoolScalar; yamlIntScalar; yamlFloatScalar;
            yamlTimestamp; yamlNull] ->
      exists e, yamlScalar node = Err e).
Proof.
  unfold yamlScalar. split; [| split].
  - intros ->. reflexivity.
  - intros [-> | ->]; reflexivity.
  - intros Hn.
    repeat match goal with
           | |- context [String.eqb (LongTag node) ?t] =>
               destruct (String.eqb_spec (LongTag node) t) as [E | _];
               [exfalso; apply Hn; rewrite E; simpl; tauto |]
           end.
    eauto.
Qed.

End WalkMore.


(** ** The reverse converter, and the walk of what it makes *)

Section ReverseMore.

Context `{Libraries}.

Lemma sliceLoop_Ok (child : any -> result Node) (val : list any)
      (content : list Node) :
  sliceLoop child val = Ok content <->
  Forall2 (fun v c => child v = Ok c) val content.
Proof.
  revert content. induction val as [| v val IH]; intros content; simpl.
  - split.
    + intros [= <-]. constructor.
    + intros HF. inversion HF. reflexivity.
  - destruct (child v) as [c | e |] eqn:Hc.
    + destruct (sliceLoop child val) as [content' | e |] eqn:Hl.
      * split.
        -- intros [= <-]. constructor; [exact Hc | apply IH; reflexivity].
        -- intros HF. inversion HF as [| ? c' ? cs Hc' HF']; subst.
           apply IH in HF'. congruence.
      * split; [discriminate |].
        intros HF. inversion HF as [| ? c' ? cs Hc' HF']; subst.
        apply IH in HF'. discriminate.
      * split; [discriminate |].
        intros HF. inversion HF as [| ? c' ? cs Hc' HF']; subst.
        apply IH in HF'. discriminate.
    + split; [discriminate |].
      intros HF. inversion HF; subst. congruence.
    + split; [discriminate |].
      intros HF. inversion HF; subst. congruence.
Qed.

(** X4: [json2yaml] turns a list into a sequence node with one child per
    element, in the list's order, and succeeds exactly when every element
    converts. *)
Theorem json2yaml_slice_in_order (val : list any) (n : Node) :
  json2yaml (ASlice val) = Ok n <->
  exists children,
    Forall2 (fun v c => json2yaml v = Ok c) val children
    /\ n = collectionNode yaml.SequenceNode children.
Proof.
  rewrite json2yaml_eq. simpl.
  destruct (sliceLoop json2yaml val) as [content | e |] eqn:Hl; simpl.
  - apply sliceLoop_Ok in Hl. split.
    + intros [= <-]. eauto.
    + intros (children & HF & ->). apply sliceLoop_Ok in HF.
      apply sliceLoop_Ok in Hl. congruence.
  - split; [discriminate |].
    intros (children & HF & _). apply sliceLoop_Ok in HF. congruence.
  - split; [discriminate |].
    intros (children & HF & _). apply sliceLoop_Ok in HF. congruence.
Qed.

Lemma marshalYAMLLoop_Ok (s : JSONMapSlice) (children : list Node) :
  Forall2 (fun it c => json2yaml (Value it) = Ok c) s children ->
  marshalYAMLLoop s
  = Ok (interleave (combine (map (fun it => scalarNode yamlStringScalar (Key it)) s)
                            children)).
Proof.
  induction 1 as [| it c s children Hc _ IH]; simpl; [reflexivity |].
  rewrite Hc, IH. reflexivity.
Qed.

Lemma marshalYAMLLoop_Err (pre post : JSONMapSlice) (it : JSONMapItem)
      (children : list Node) (e : error) :
  Forall2 (fun it c => json2yaml (Value it) = Ok c) pre children ->
  json2yaml (Value it) = Err e ->
  marshalYAMLLoop (pre ++ it :: post) = Err e.
Proof.
  intros HF He. induction HF as [| x c pre children Hc _ IH]; simpl.
  - rewrite He. reflexivity.
  - rewrite Hc, IH. reflexivity.
Qed.

(** X5: when every value of the document converts, [MarshalYAML] hands to
    [yaml.Marshal] a document node whose only child is a mapping node
    holding, for each entry in stored order, the key as a string scalar
    followed by the converted value; and the first value that does not
    convert makes [MarshalYAML] return that value's error, whatever comes
    after it. *)
Theorem MarshalYAML_stored_order (s : JSONMapSlice) :
  (forall children,
      Forall2 (fun it c => json2yaml (Value it) = Ok c) s children ->
      MarshalYAML s
      = yaml_Marshal
          (collectionNode yaml.DocumentNode
             [collectionNode yaml.MappingNode
                (interleave
                   (combine (map (fun it => scalarNode yamlStringScalar (Key it)) s)
                            children))]))
  /\ (forall pre it post children e,
         s = pre ++ it :: post ->
         Forall2 (fun it c => json2yaml (Value it) = Ok c) pre children ->
         json2yaml (Value it) = Err e ->
         MarshalYAML s = Err e).
Proof.
  split.
  - intros children HF. unfold MarshalYAML, marshalYAMLDocument.
    rewrite (marshalYAMLLoop_Ok s children HF). reflexivity.
  - intros pre it post children e -> HF He.
    unfold MarshalYAML, marshalYAMLDocument.
    rewrite (marshalYAMLLoop_Err pre post it children e HF He). reflexivity.
Qed.


Section Tagged.

(** The yaml library reports the tag a scalar node was given. *)
Hypothesis LongTag_explicit :
  forall tag value, tag <> "" -> LongTag (scalarNode tag value) = tag.






End Tagged.

End ReverseMore.


(** ** The key normaliser, again *)

Section NormaliseMore.

Context `{Libraries}.

Lemma genSliceLoop_Ok (transform : any -> result any) (l o : list any) :
  genSliceLoop transform l = Ok o <->
  Forall2 (fun x v => transform x = Ok v) l o.
Proof.
  revert o. induction l as [| x l IH]; intros o; simpl.
  - split.
    + intros [= <-]. constructor.
    + intros HF. inversion HF. reflexivity.
  - destruct (transform x) as [v | e |] eqn:Hv.
    + destruct (genSliceLoop transform l) as [o' | e |] eqn:Hl.
      * split.
        -- intros [= <-]. constructor; [exact Hv | apply IH; reflexivity].
        -- intros HF. inversion HF as [| ? v' ? vs Hv' HF']; subst.
           apply IH in HF'. congruence.
      * split; [discriminate |].
        intros HF. inversion HF as [| ? v' ? vs Hv' HF']; subst.
        apply IH in HF'. discriminate.
      * split; [discriminate |].
        intros HF. inversion HF as [| ? v' ? vs Hv' HF']; subst.
        apply IH in HF'. discriminate.
    + split; [discriminate |].
      intros HF. inversion HF; subst. congruence.
    + split; [discriminate |].
      intros HF. inversion HF; subst. congruence.
Qed.

Lemma isDocumentValue_settled (v : any) :
  isDocumentValue v = true -> settled v = true.
Proof.
  revert v. fix IH 1. intros v.
  destruct v as [| | | k z | | | | | | l | | | | | |]; try discriminate;
    try (intros _; reflexivity).
  cbn [isDocumentValue settled]. intros Hl.
  induction l as [| x l IHl]; [reflexivity |].
  simpl in Hl |- *. apply andb_true_iff in Hl. destruct Hl as [Hx Hl].
  rewrite (IH x Hx), (IHl Hl). reflexivity.
Qed.

(** A settled value is left as it is. *)
Lemma transformData_settled (v : any) :
  settled v = true -> transformData v = Ok v.
Proof.
  revert v. fix IH 1. intros v.
  destruct v as [| | | | | | | | | l | t | | | | |]; try discriminate;
    try (intros _; reflexivity).
  - cbn [settled]. intros Hl.
    assert (Hs : genSliceLoop transformData l = Ok l).
    { induction l as [| x l IHl]; [reflexivity |].
      simpl in Hl |- *. apply andb_true_iff in Hl. destruct Hl as [Hx Hl].
      rewrite (IH x Hx), (IHl Hl). reflexivity. }
    simpl. rewrite Hs. reflexivity.
  - destruct t; try discriminate; intros _; reflexivity.
Qed.

(** What [transformData] returns is settled. *)
Lemma transformData_result_settled (x y : any) :
  transformData x = Ok y -> settled y = true.
Proof.
  revert x y. fix IH 1. intros x y.
  destruct x as [| | | | | | | | m | l | t | n | n | | |];
    try (intros [= <-]; reflexivity).
  - simpl. destruct (genMapLoop transformData m); try discriminate.
    intros [= <-]. reflexivity.
  - assert (Hs : forall o, genSliceLoop transformData l = Ok o ->
                           forallb settled o = true).
    { induction l as [| a l IHl]; intros o; simpl.
      - intros [= <-]. reflexivity.
      - destruct (transformData a) as [b | |] eqn:Hab; try discriminate.
        destruct (genSliceLoop transformData l) as [o' | |]; try discriminate.
        intros [= <-]. simpl. rewrite (IH a b Hab), (IHl o' eq_refl).
        reflexivity. }
    simpl. destruct (genSliceLoop transformData l) as [o | |];
      try discriminate.
    intros [= <-]. exact (Hs o eq_refl).
  - destruct t; try (intros [= <-]; reflexivity); discriminate.
  - simpl. intros Hn. apply isDocumentValue_settled.
    apply (yamlNode_walks_document_value n y Hn).
  - simpl. intros Hn. apply isDocumentValue_settled.
    apply (yamlNode_walks_document_value n y Hn).
Qed.

(** X8: [transformData] is idempotent: applied to a value it has
    returned, it returns that value again. *)
Theorem transformData_idempotent (x y : any) :
  transformData x = Ok y -> transformData y = Ok y.
Proof.
  intros Hx. apply transformData_settled.
  apply (transformData_result_settled x y Hx).
Qed.

(** X9: on a list, [transformData] succeeds exactly when every element is
    normalised, and yields the normalised elements in the list's order; a
    nil list yields the empty list. *)
Theorem transformData_slice_in_order (l : list any) :
  (forall r, transformData (ASlice l) = Ok r <->
             exists vals,
               Forall2 (fun x v => transformData x = Ok v) l vals
               /\ r = ASlice vals)
  /\ transformData (ANilOf TSlice) = Ok (ASlice []).
Proof.
  split; [| reflexivity].
  intros r.
  assert (Heq : transformData (ASlice l)
                = wrapSlice (genSliceLoop transformData l)) by reflexivity.
  rewrite Heq.
  destruct (genSliceLoop transformData l) as [o | e |] eqn:Hl; simpl.
  - apply genSliceLoop_Ok in Hl. split.
    + intros [= <-]. eauto.
    + intros (vals & HF & ->). apply genSliceLoop_Ok in HF.
      apply genSliceLoop_Ok in Hl. congruence.
  - split; [discriminate |].
    intros (vals & HF & _). apply genSliceLoop_Ok in HF. congruence.
  - split; [discriminate |].
    intros (vals & HF & _). apply genSliceLoop_Ok in HF. congruence.
Qed.

(** X10: the document that [BytesToYAMLDoc] accepts is normalised by
    [transformData] into an ordered document, the walk of its root
    mapping, or not at all: never into a list or a scalar. *)
Theorem transformData_of_parsed_document (data : list Byte.byte) (doc : any) :
  BytesToYAMLDoc data = Ok doc ->
  exists document root,
    doc = ANodePtr document
    /\ yaml.Content document = [root]
    /\ transformData doc = yamlMapping root
    /\ forall r, transformData doc = Ok r ->
                 exists m, r = AJSONMapSlice m /\ isDocumentValue r = true.
Proof.
  unfold BytesToYAMLDoc.
  destruct (yaml_Unmarshal data) as [document [err |]]; [discriminate |].
  destruct (Z.eqb_spec (yaml.Kind_ document) yaml.DocumentNode) as [Hk | Hk];
    [| discriminate].
  destruct (yaml.Content document) as [| root [| c2 content]] eqn:Hc.
  - discriminate.
  - destruct (Z.eqb_spec (yaml.Kind_ root) yaml.MappingNode) as [Hm | Hm];
      [| discriminate].
    simpl. intros [= <-]. exists document, root.
    assert (Heq : transformData (ANodePtr document) = yamlMapping root).
    { change (transformData (ANodePtr document)) with (yamlNode document).
      rewrite yamlNode_eq. cbv zeta. rewrite Hk. cbn [Z.eqb yaml.DocumentNode].
      unfold yamlDocument. rewrite Hc. rewrite yamlNode_eq. cbv zeta.
      rewrite Hm. reflexivity. }
    split; [reflexivity |]. split; [exact Hc |]. split; [exact Heq |].
    intros r Hr.
    assert (Hd : isDocumentValue r = true).
    { change (transformData (ANodePtr document)) with (yamlNode document) in Hr.
      apply (yamlNode_walks_document_value document r Hr). }
    rewrite Heq in Hr. unfold yamlMapping in Hr.
    destruct (mappingLoop yamlNode (yaml.Content root)) as [m | |];
      try discriminate.
    injection Hr as <-. eauto.
  - replace (Z.of_nat (List.length (root :: c2 :: content)) =? 1) with false
      by (symmetry; apply Z.eqb_neq; simpl List.length; lia).
    discriminate.
Qed.

End NormaliseMore.


(** ** The pipeline, again *)

Section PipelineMore.

Variable St : Type.

Lemma applyLoop_app (ps qs : list (DocProcessor St)) (d : any) (st : St) :
  applyLoop (ps ++ qs) d st =
  let '((d', err), st') := applyLoop ps d st in
  match err with
  | Some e => ((Nil, Some e), st')
  | None => applyLoop qs d' st'
  end.
Proof.
  revert d st. induction ps as [| p ps IH]; intros d st; simpl.
  - reflexivity.
  - destruct (p d st) as [[d' [e |]] st']; [reflexivity | apply IH].
Qed.

(** X11: applying the processors of two lists put end to end is applying
    the first list and then, if it returned no error, the second list to
    the document and the state the first one left; an error of the first
    list is the result, with no document. *)
Theorem ApplyTransforms_append (ps qs : list (DocProcessor St)) (d : any) (st : St) :
  ApplyTransforms (mkDocOptions (ps ++ qs)) d st =
  let '((d', err), st') := ApplyTransforms (mkDocOptions ps) d st in
  match err with
  | Some e => ((Nil, Some e), st')
  | None => ApplyTransforms (mkDocOptions qs) d' st'
  end.
Proof. unfold ApplyTransforms. simpl. apply applyLoop_app. Qed.

Lemma docOptions_fold (specs : list (optionSpec St)) (o : docOptions St) :
  processors (fold_left (fun o apply => apply o) (map optionOf specs) o)
  = processors o ++ flat_map registered specs.
Proof.
  revert o. induction specs as [| s specs IH]; intros o; simpl.
  - rewrite app_nil_r. reflexivity.
  - rewrite IH. destruct s as [p | [|]]; simpl.
    + rewrite <- app_assoc. reflexivity.
    + rewrite <- app_assoc. reflexivity.
    + reflexivity.
Qed.

(** X12: [docOptionsWithDefaults] keeps, in the order of the options, the
    processor of every [WithDocProcessor] and the XOrder processor of every
    [WithXOrderProcessor(true)]; [WithXOrderProcessor(false)] registers
    nothing; and [HasTransforms] tells whether anything was registered. *)
Theorem docOptionsWithDefaults_registered (specs : list (optionSpec St)) :
  processors (docOptionsWithDefaults (map optionOf specs))
  = flat_map registered specs
  /\ (HasTransforms St (docOptionsWithDefaults (map optionOf specs)) = false
      <-> flat_map registered specs = []).
Proof.
  assert (Hp : processors (docOptionsWithDefaults (map optionOf specs))
               = flat_map registered specs).
  { unfold docOptionsWithDefaults. rewrite docOptions_fold. reflexivity. }
  split; [exact Hp |].
  unfold HasTransforms. rewrite Hp.
  destruct (flat_map registered specs) as [| p ps]; simpl.
  - split; reflexivity.
  - split; [| discriminate].
    intros Hf. apply Z.ltb_ge in Hf. lia.
Qed.

(** X13: the XOrder processor does not accept the nil document that it
    returns itself: when two of them follow each other in a pipeline whose
    earlier processors succeed with a [yaml.Node], a [*yaml.Node] or a
    [JSONMapSlice], the pipeline fails with the error of the second one,
    whatever comes after. *)
Theorem XOrder_twice_fails (pre post : list (DocProcessor St))
        (d d1 : any) (st st1 : St) :
  runs pre d st d1 st1 ->
  acceptedByXOrder d1 = true ->
  ApplyTransforms
    (mkDocOptions (pre ++ xOrderProcessor :: xOrderProcessor :: post)) d st
  = ((Nil,
      Some (Errorf "XOrder processor only support yamlv3.Node and swag.JSONMapSlice input documents, got: %T"
                   ["<nil>"] [])),
     st1).
Proof.
  intros Hr Ht. unfold ApplyTransforms. simpl.
  rewrite (applyLoop_runs St pre _ d d1 st st1 Hr).
  destruct d1 as [| | | | | | | | | | t | | | | |]; try discriminate;
    try reflexivity.
  destruct t; try discriminate; reflexivity.
Qed.

End PipelineMore.

(** ** Loading a document and converting it to JSON *)

Section LoadingMore.

Context `{Libraries}.

Variable LoadFromFileOrHTTP : string -> result (list Byte.byte).
Variable St : Type.

(** X14: with the XOrder option enabled and no other option, [YAMLDoc]
    returns the JSON text [null] for every path whose content loads and
    parses into an object document: the processor replaces the document
    by nil, and nil is what is converted. *)
Theorem YAMLDoc_XOrder_null (path : string) (data : list Byte.byte) (doc : any)
        (st : St) :
  LoadFromFileOrHTTP path = Ok data ->
  BytesToYAMLDoc data = Ok doc ->
  YAMLDoc LoadFromFileOrHTTP path [WithXOrderProcessor true] st = (Ok [LNull], st).
Proof.
  intros Hload Hdoc. unfold YAMLDoc, YAMLData. rewrite Hload, Hdoc.
  assert (Hp : exists document, doc = ANodePtr document).
  { unfold BytesToYAMLDoc in Hdoc.
    destruct (yaml_Unmarshal data) as [document [err |]]; [discriminate |].
    destruct (_ || _); [discriminate |]. injection Hdoc as <-. eauto. }
  destruct Hp as [document ->]. reflexivity.
Qed.

(** X15: the JSON text written for a mapping node whose values walk to
    scalars has one entry per key/value pair of the mapping, in the
    mapping's order, repeated keys included. *)
Theorem YAMLToJSON_keeps_order (root : Node) (pairs : list (Node * Node))
        (vals : list any) :
  yaml.Kind_ root = yaml.MappingNode ->
  yaml.Content root = interleave pairs ->
  Forall2 (fun p v => yamlStringScalarC (fst p) = Ok (yaml.Value (fst p))
                      /\ yamlNode (snd p) = Ok v) pairs vals ->
  Forall (fun v => isJSONScalar v = true) vals ->
  YAMLToJSON (ANodePtr root) = Ok (documentText (entriesOf pairs vals))
  /\ map Key (entriesOf pairs vals) = map (fun p => yaml.Value (fst p)) pairs.
Proof.
  intros Hk Hc HF Hs.
  assert (Hl : mappingLoop yamlNode (interleave pairs) = Ok (entriesOf pairs vals))
    by (apply mappingLoop_Ok; eauto).
  split.
  - unfold YAMLToJSON.
    change (transformData (ANodePtr root)) with (yamlNode root).
    rewrite yamlNode_eq. cbv zeta. rewrite Hk. cbn [Z.eqb yaml.MappingNode
      yaml.DocumentNode yaml.SequenceNode Pos.eqb].
    unfold yamlMapping. rewrite Hc, Hl. cbn [wrapMapSlice].
    change (WriteJSON (AJSONMapSlice (entriesOf pairs vals)))
      with (MarshalJSON (entriesOf pairs vals)).
    apply MarshalJSON_scalars.
    clear - HF Hs. unfold entriesOf.
    induction HF as [| p v ps vs _ _ IH]; simpl; [constructor |].
    inversion Hs; subst. constructor; [assumption | auto].
  - clear - HF. unfold entriesOf.
    induction HF as [| p v ps vs _ _ IH]; simpl; [reflexivity |].
    rewrite IH. reflexivity.
Qed.

End LoadingMore.


(** ** The JSON decoder, again *)

Section JSONMore.

Context `{Libraries}.

(** X16: one entry of scalar payload, written by [JSONMapItem.MarshalJSON]
    as key, colon and value, is read back by [JSONMapItem.UnmarshalJSON]
    without error, with its key and with its value (an integer as the
    [float64] nearest to it). *)
Theorem itemMarshalJSON_itemUnmarshalJSON (it s : JSONMapItem) :
  isJSONScalar (Value it) = true ->
  itemMarshalJSON it
  = Ok [LString (Key it); LSep ":"; scalarLexeme (Value it)]
  /\ itemUnmarshalJSON s [LString (Key it); LSep ":"; scalarLexeme (Value it)]
     = Some (mkItem (Key it) (decodedScalar (Value it)), None).
Proof.
  intros Hs. split.
  - unfold itemMarshalJSON, itemMarshal.
    change newWriter with (mkWriter [] None).
    rewrite (itemMarshal_scalar it [] Hs). reflexivity.
  - destruct it as [k v]. destruct v; try discriminate; reflexivity.
Qed.

(** One step of the loop over an entry of scalar payload. *)
Lemma loop_scalar_entry (fuel : nat) (acc : JSONMapSlice) (fresh : bool)
      (it : JSONMapItem) (tail : list lexeme) :
  isJSONScalar (Value it) = true ->
  mapSliceUnmarshalLoop (S (S fuel)) acc
    (lexerBefore fresh
       (LString (Key it) :: LSep ":" :: scalarLexeme (Value it) :: tail))
  = mapSliceUnmarshalLoop (S fuel)
      (acc ++ [mkItem (Key it) (decodedScalar (Value it))]) (lexerAfter tail).
Proof.
  destruct it as [k v]. destruct fresh; destruct v; try discriminate;
    intros _; reflexivity.
Qed.

Lemma entriesThen_fresh (doc : JSONMapSlice) (tail : list lexeme) (fresh : bool) :
  doc <> [] ->
  lexerBefore fresh (entriesThen true doc tail)
  = match fresh with
    | true => mkLexer (entriesThen true doc tail) Undef true None None
    | false => lexerAfter (entriesThen false doc tail)
    end.
Proof.
  destruct doc as [| it rest]; [contradiction |]. intros _.
  destruct fresh; reflexivity.
Qed.

(** The loop over entries of scalar payload, whatever follows them. *)
Lemma loop_scalar_entries (doc : JSONMapSlice) :
  Forall (fun it => isJSONScalar (Value it) = true) doc ->
  forall (fuel : nat) (acc : JSONMapSlice) (tail : list lexeme),
    mapSliceUnmarshalLoop (List.length doc + S fuel) acc
                          (lexerAfter (entriesThen false doc tail))
    = mapSliceUnmarshalLoop (S fuel) (acc ++ decodedEntries doc) (lexerAfter tail).
Proof.
  induction 1 as [| it rest Hit _ IH]; intros fuel acc tail.
  - simpl. rewrite app_nil_r. reflexivity.
  - cbn [entriesThen List.length app].
    change (lexerAfter (LSep "," :: LString (Key it) :: LSep ":"
                          :: scalarLexeme (Value it) :: entriesThen false rest tail))
      with (lexerBefore false
              (LString (Key it) :: LSep ":" :: scalarLexeme (Value it)
                 :: entriesThen false rest tail)).
    replace (S (List.length rest) + S fuel)%nat
      with (S (S (List.length rest + fuel))) by lia.
    rewrite (loop_scalar_entry _ acc false it _ Hit).
    replace (S (List.length rest + fuel)) with (List.length rest + S fuel)%nat by lia.
    rewrite IH. cbn [decodedEntries map]. rewrite <- app_assoc. reflexivity.
Qed.

(** The same from the opening brace. *)
Lemma loop_scalar_entries_fresh (doc : JSONMapSlice) :
  Forall (fun it => isJSONScalar (Value it) = true) doc ->
  doc <> [] ->
  forall (fuel : nat) (acc : JSONMapSlice) (tail : list lexeme),
    mapSliceUnmarshalLoop (List.length doc + S fuel) acc
                          (lexerBefore true (entriesThen true doc tail))
    = mapSliceUnmarshalLoop (S fuel) (acc ++ decodedEntries doc) (lexerAfter tail).
Proof.
  intros Hd Hne fuel acc tail. destruct Hd as [| it rest Hit Hrest]; [contradiction |].
  cbn [entriesThen List.length app].
  replace (S (List.length rest) + S fuel)%nat
    with (S (S (List.length rest + fuel))) by lia.
  rewrite (loop_scalar_entry _ acc true it _ Hit).
  replace (S (List.length rest + fuel)) with (List.length rest + S fuel)%nat by lia.
  rewrite (loop_scalar_entries rest Hrest).
  cbn [decodedEntries map]. rewrite <- app_assoc. reflexivity.
Qed.

Lemma IsDelim_before_key (fresh : bool) (k : string) (tail : list lexeme) :
  IsDelim "}" (lexerBefore fresh (LString k :: tail))
  = (false, mkLexer tail (TString k) fresh None None).
Proof. destruct fresh; reflexivity. Qed.

Lemma IsDelim_closing (fresh : bool) (more : list lexeme) :
  IsDelim "}" (if fresh then lexerBefore true (LDelim "}" :: more)
               else lexerAfter (LDelim "}" :: more))
  = (true, mkLexer more (TDelim "}") fresh None None).
Proof. destruct fresh; reflexivity. Qed.

(** The loop over an object of scalar payloads, from its opening brace to
    its closing brace: it returns with the closing brace scanned and still
    pending. *)
Lemma loop_scalar_object (inner : JSONMapSlice) (fuel : nat) (more : list lexeme) :
  Forall (fun it => isJSONScalar (Value it) = true) inner ->
  exists first,
    mapSliceUnmarshalLoop (List.length inner + S fuel) []
      (lexerBefore true (entriesThen true inner (LDelim "}" :: more)))
    = Some (decodedEntries inner, mkLexer more (TDelim "}") first None None).
Proof.
  intros Hd. destruct inner as [| it rest].
  - exists true. reflexivity.
  - exists false.
    rewrite (loop_scalar_entries_fresh (it :: rest) Hd) by discriminate.
    rewrite mapSliceUnmarshalLoop_S.
    rewrite (IsDelim_closing false more). reflexivity.
Qed.

(** An entry whose value is an object of scalar payloads: once the
    nested object is read, the loop of the enclosing object finds the
    nested closing brace pending and stops there. *)
Lemma loop_nested_entry (inner : JSONMapSlice) (fuel : nat) (acc : JSONMapSlice)
      (fresh : bool) (k : string) (more : list lexeme) :
  Forall (fun it => isJSONScalar (Value it) = true) inner ->
  mapSliceUnmarshalLoop (List.length inner + S (S (S (S fuel)))) acc
    (lexerBefore fresh
       (LString k :: LSep ":" :: LDelim "{"
          :: entriesThen true inner (LDelim "}" :: more)))
  = Some (acc ++ [mkItem k (innerValue (decodedEntries inner))],
          mkLexer more (TDelim "}") false (Some ","%char) None).
Proof.
  intros Hd.
  destruct (loop_scalar_object inner fuel more Hd) as [first Hloop].
  replace (List.length inner + S (S (S (S fuel))))%nat
    with (S (S (S (List.length inner + S fuel)))) by lia.
  rewrite mapSliceUnmarshalLoop_S, IsDelim_before_key. cbv beta match zeta.
  rewrite itemUnmarshal_S.
  change (UnsafeString
            (mkLexer (LSep ":" :: LDelim "{"
                        :: entriesThen true inner (LDelim "}" :: more))
                     (TString k) fresh None None))
    with (k, mkLexer (LSep ":" :: LDelim "{"
                        :: entriesThen true inner (LDelim "}" :: more))
                     Undef fresh None None).
  cbv beta match zeta.
  change (IsDelim "{"
            (WantColon
               (mkLexer (LSep ":" :: LDelim "{"
                           :: entriesThen true inner (LDelim "}" :: more))
                        Undef fresh None None)))
    with (true, mkLexer (entriesThen true inner (LDelim "}" :: more))
                        (TDelim "{") true None None).
  cbv beta match zeta.
  rewrite mapSliceUnmarshal_S.
  change (IsNull (mkLexer (entriesThen true inner (LDelim "}" :: more))
                          (TDelim "{") true None None))
    with (false, mkLexer (entriesThen true inner (LDelim "}" :: more))
                         (TDelim "{") true None None).
  cbv beta match zeta.
  change (Delim "{" (mkLexer (entriesThen true inner (LDelim "}" :: more))
                             (TDelim "{") true None None))
    with (lexerBefore true (entriesThen true inner (LDelim "}" :: more))).
  rewrite Hloop. cbv beta match zeta.
  change (negb (LexerOk (WantComma (mkLexer more (TDelim "}") first None None))))
    with false.
  cbv beta match zeta.
  rewrite mapSliceUnmarshalLoop_S. reflexivity.
Qed.

(** X17: the decoder of an object returns from a nested object with the
    nested closing brace scanned but not consumed, and the loop of the
    enclosing object takes that brace for its own.  Hence, for entries of
    scalar payload followed by an entry whose value is an object of
    scalar payloads, [UnmarshalJSON] returns these entries and no error,
    whatever lexemes follow the nested object: further entries are
    dropped, and text that is not JSON goes unnoticed. *)
Theorem UnmarshalJSON_stops_after_nested_object
        (s pre inner : JSONMapSlice) (k : string) (more : list lexeme) :
  Forall (fun it => isJSONScalar (Value it) = true) pre ->
  Forall (fun it => isJSONScalar (Value it) = true) inner ->
  UnmarshalJSON s
    (LDelim "{"
       :: entriesThen true pre
            ((match pre with [] => [] | _ :: _ => [LSep ","] end)
               ++ LString k :: LSep ":" :: LDelim "{"
               :: entriesThen true inner (LDelim "}" :: more)))
  = Some (decodedEntries pre ++ [mkItem k (innerValue (decodedEntries inner))],
          None).
Proof.
  intros Hpre Hinner. unfold UnmarshalJSON.
  set (tail := LDelim "{" :: entriesThen true inner (LDelim "}" :: more)).
  set (data := LDelim "{" :: entriesThen true pre _).
  assert (Hlen : (List.length pre + List.length inner + 5 <= List.length data)%nat).
  { unfold data, tail. clear.
    assert (Hth : forall doc fresh t,
               (List.length doc + List.length t
                <= List.length (entriesThen fresh doc t))%nat).
    { induction doc as [| it rest IH]; intros fresh t; simpl; [lia |].
      rewrite length_app. simpl. specialize (IH false t). lia. }
    simpl List.length.
    pose proof (Hth pre true
                  ((match pre with [] => [] | _ :: _ => [LSep ","] end)
                     ++ LString k :: LSep ":" :: LDelim "{"
                     :: entriesThen true inner (LDelim "}" :: more))) as H1.
    rewrite length_app in H1. simpl List.length in H1.
    pose proof (Hth inner true (LDelim "}" :: more)) as H2.
    simpl List.length in H2. lia. }
  remember (3 * List.length data + 2 - (List.length pre + List.length inner + 6))%nat
    as fuel eqn:Hfuel.
  replace (3 * List.length data + 2)%nat
    with (S (List.length pre + S (List.length inner + S (S (S (S fuel))))))
    by lia.
  rewrite mapSliceUnmarshal_S.
  change (IsNull (newLexer data))
    with (false, mkLexer (entriesThen true pre
                            ((match pre with [] => [] | _ :: _ => [LSep ","] end)
                               ++ LString k :: LSep ":" :: tail))
                         (TDelim "{") true None None).
  cbv beta match zeta.
  change (Delim "{" (mkLexer (entriesThen true pre
                                ((match pre with [] => [] | _ :: _ => [LSep ","] end)
                                   ++ LString k :: LSep ":" :: tail))
                             (TDelim "{") true None None))
    with (lexerBefore true
            (entriesThen true pre
               ((match pre with [] => [] | _ :: _ => [LSep ","] end)
                  ++ LString k :: LSep ":" :: tail))).
  destruct pre as [| it rest].
  - cbn [entriesThen app List.length Nat.add decodedEntries map].
    unfold tail.
    replace (S (List.length inner + S (S (S (S fuel)))))
      with (List.length inner + S (S (S (S (S fuel)))))%nat by lia.
    rewrite (loop_nested_entry inner (S fuel) [] true k more Hinner).
    reflexivity.
  - rewrite (loop_scalar_entries_fresh (it :: rest) Hpre) by discriminate.
    change (lexerAfter ([LSep ","] ++ LString k :: LSep ":" :: tail))
      with (lexerBefore false (LString k :: LSep ":" :: tail)).
    unfold tail.
    replace (S (List.length inner + S (S (S (S fuel)))))
      with (List.length inner + S (S (S (S (S fuel)))))%nat by lia.
    rewrite (loop_nested_entry inner (S fuel) _ false k more Hinner).
    reflexivity.
Qed.

(** X18: the decoders always return: the depth bound that
    [JSONMapSlice.UnmarshalJSON] and [JSONMapItem.UnmarshalJSON] are run
    with is never used up, whatever the input (truncated or malformed text
    included), the array decoder being one that hands back no more input
    than it was given. *)
Theorem UnmarshalJSON_returns (s : JSONMapSlice) (it : JSONMapItem)
        (data : list lexeme) :
  (forall l, (weight (snd (unmarshalSliceItem l)) <= weight l)%nat) ->
  (exists s' err, UnmarshalJSON s data = Some (s', err))
  /\ (exists it' err, itemUnmarshalJSON it data = Some (it', err)).
Proof.
  intros Hreads.
  destruct (decoder_total Hreads (3 * List.length data + 2)) as (Hs & _ & _).
  destruct (decoder_total Hreads (3 * List.length data + 3)) as (_ & _ & Hi).
  assert (Hw : weight (newLexer data) = List.length data)
    by (change (weight (newLexer data)) with (List.length data + 0)%nat; lia).
  split.
  - destruct (Hs s (newLexer data)) as (s' & l' & Heq & _); [lia |].
    unfold UnmarshalJSON. rewrite Heq. eauto.
  - destruct data as [| tk data'].
    + unfold itemUnmarshalJSON. cbn [List.length Nat.mul Nat.add].
      rewrite itemUnmarshal_S. cbv. eauto.
    + destruct (Hi it (newLexer (tk :: data'))) as (it' & l' & Heq & _);
        [rewrite Hw; simpl; lia | lia |].
      unfold itemUnmarshalJSON. rewrite Heq. eauto.
Qed.

End JSONMore.


(** ** [YAMLMatcher] and the helpers of [util.go] *)

Lemma list_ascii_of_string_app (a b : string) :
  list_ascii_of_string (a ++ b)
  = list_ascii_of_string a ++ list_ascii_of_string b.
Proof. induction a as [| c a IH]; simpl; [reflexivity | rewrite IH; reflexivity]. Qed.

Lemma string_of_list_ascii_app (a b : list ascii) :
  string_of_list_ascii (a ++ b)
  = (string_of_list_ascii a ++ string_of_list_ascii b)%string.
Proof. induction a as [| c a IH]; simpl; [reflexivity | rewrite IH; reflexivity]. Qed.

Lemma string_app_assoc (a b c : string) :
  ((a ++ b) ++ c)%string = (a ++ (b ++ c))%string.
Proof. induction a as [| x a IH]; simpl; [reflexivity | rewrite IH; reflexivity]. Qed.

Lemma string_app_nil_r (a : string) : (a ++ "")%string = a.
Proof. induction a as [| x a IH]; simpl; [reflexivity | rewrite IH; reflexivity]. Qed.

(** An extension, when there is one, is a suffix of the path. *)
Lemma extScan_suffix (rest : list ascii) (suffix e : string) :
  extScan rest suffix = e -> e <> "" ->
  exists stem,
    (string_of_list_ascii (rev rest) ++ suffix)%string = (stem ++ e)%string.
Proof.
  revert suffix. induction rest as [| c rest IH]; intros suffix; simpl.
  - intros <- Hne. contradiction.
  - destruct (Ascii.eqb c "/"); [intros <- Hne; contradiction |].
    destruct (Ascii.eqb c ".").
    + intros <- _. exists (string_of_list_ascii (rev rest)).
      rewrite string_of_list_ascii_app, string_app_assoc. reflexivity.
    + intros He Hne. destruct (IH _ He Hne) as [stem Hs].
      exists stem. rewrite string_of_list_ascii_app, string_app_assoc.
      exact Hs.
Qed.

Lemma Ext_suffix (path e : string) :
  Ext path = e -> e <> "" -> exists stem, path = (stem ++ e)%string.
Proof.
  unfold Ext. intros He Hne.
  destruct (extScan_suffix _ _ _ He Hne) as [stem Hs].
  exists stem. rewrite rev_involutive, string_of_list_ascii_of_string in Hs.
  rewrite <- Hs. clear. induction path as [| c p IH]; simpl; [reflexivity |].
  rewrite <- IH. reflexivity.
Qed.

(** X19: [YAMLMatcher] accepts exactly the paths that end in [.yaml] or in
    [.yml]. *)
Theorem YAMLMatcher_suffix (path : string) :
  YAMLMatcher path = true <->
  exists stem, path = (stem ++ ".yaml")%string \/ path = (stem ++ ".yml")%string.
Proof.
  unfold YAMLMatcher. cbv zeta. split.
  - intros Hm. apply orb_true_iff in Hm. destruct Hm as [Hm | Hm];
      apply String.eqb_eq in Hm;
      destruct (Ext_suffix path _ Hm) as [stem Hs]; try discriminate;
      exists stem; auto.
  - intros [stem [-> | ->]]; unfold Ext;
      rewrite list_ascii_of_string_app, rev_app_distr; reflexivity.
Qed.

(** X20: [ContainsStrings] tells whether the item is an element of the
    collection. *)
Theorem ContainsStrings_In (coll : list string) (item : string) :
  ContainsStrings coll item = true <-> In item coll.
Proof.
  unfold ContainsStrings. rewrite existsb_exists. split.
  - intros (a & Ha & He). apply String.eqb_eq in He. subst. exact Ha.
  - intros Hi. exists item. split; [exact Hi | apply String.eqb_refl].
Qed.

Lemma separatorOf_byte (format sep : string) :
  separatorOf format = Some sep -> exists c, sep = String c "".
Proof.
  unfold separatorOf.
  repeat match goal with
         | |- context [if ?b then _ else _] => destruct b
         end; intros [= <-]; eauto.
Qed.

(** Reading on through a piece that holds no separator. *)
Lemma splitFrom_piece (c : ascii) (x rest cur : string) :
  ~ In c (list_ascii_of_string x) ->
  splitFrom (String c "") O (x ++ rest) cur
  = splitFrom (String c "") O rest (cur ++ x).
Proof.
  revert cur. induction x as [| a x IH]; intros cur Hn; simpl.
  - rewrite string_app_nil_r. reflexivity.
  - destruct (ascii_dec c a) as [-> | Hca].
    + exfalso. apply Hn. left. reflexivity.
    + rewrite IH by (intros Hi; apply Hn; right; exact Hi).
      rewrite string_app_assoc. reflexivity.
Qed.

(** Splitting what was joined gives the elements back, when the
    separator is a single byte that occurs in none of them. *)
Lemma Split_Join (c : ascii) (data : list string) :
  data <> [] ->
  Forall (fun x => ~ In c (list_ascii_of_string x)) data ->
  Split (Join data (String c "")) (String c "") = data.
Proof.
  intros Hne Hd. unfold Split.
  assert (Hgen : forall cur,
             splitFrom (String c "") O (Join data (String c "")) cur
             = match data with
               | [] => [cur]
               | x :: rest => (cur ++ x)%string :: rest
               end).
  { clear Hne. induction Hd as [| x rest Hx Hrest IH]; intros cur.
    - reflexivity.
    - destruct rest as [| y rest'].
      + simpl Join. rewrite <- (string_app_nil_r x) at 1.
        rewrite (splitFrom_piece c x "" cur Hx). reflexivity.
      + change (Join (x :: y :: rest') (String c ""))
          with (x ++ String c (Join (y :: rest') (String c "")))%string.
        rewrite (splitFrom_piece c x _ cur Hx).
        cbn [splitFrom String.prefix].
        destruct (ascii_dec c c) as [_ | Hcc]; [| contradiction].
        replace (String.prefix "" (Join (y :: rest') (String c ""))) with true
          by (destruct (Join (y :: rest') (String c "")); reflexivity).
        cbn [String.length Nat.pred]. rewrite IH. reflexivity. }
  rewrite Hgen. destruct data; [contradiction | reflexivity].
Qed.

Section StringsMore.

Variable TrimSpace : string -> string.
Variable EqualFold : string -> string -> bool.

Lemma trimmedPieces_nonempty (pieces : list string) :
  Forall (fun s => s <> "") (trimmedPieces TrimSpace pieces).
Proof.
  induction pieces as [| s pieces IH]; simpl; [constructor |].
  destruct (String.eqb_spec (TrimSpace s) ""); simpl; [exact IH |].
  constructor; assumption.
Qed.

Lemma trimmedPieces_fixed (pieces : list string) :
  Forall (fun s => s <> "" /\ TrimSpace s = s) pieces ->
  trimmedPieces TrimSpace pieces = pieces.
Proof.
  induction 1 as [| s pieces [Hne Ht] _ IH]; simpl; [reflexivity |].
  rewrite Ht. destruct (String.eqb_spec s ""); [contradiction |].
  simpl. rewrite IH. reflexivity.
Qed.


(** X22: for every format but multi, [JoinByFormat] makes one string of a
    list that is not empty, and [SplitByFormat] of that string gives the
    list back, provided no element is empty, holds the separator or has
    space around it. *)
Theorem SplitByFormat_JoinByFormat (data : list string) (format sep : string) :
  separatorOf format = Some sep ->
  data <> [] ->
  Forall (fun x => x <> "" /\ TrimSpace x = x
                   /\ forall c, In c (list_ascii_of_string sep) ->
                                ~ In c (list_ascii_of_string x)) data ->
  JoinByFormat data format = [Join data sep]
  /\ SplitByFormat TrimSpace (Join data sep) format = data.
Proof.
  intros Hsep Hne Hd. split.
  - unfold JoinByFormat. rewrite Hsep. destruct data; [contradiction | reflexivity].
  - destruct (separatorOf_byte format sep Hsep) as [c ->].
    unfold SplitByFormat. rewrite Hsep.
    assert (Hj : Join data (String c "") <> "").
    { destruct Hd as [| x rest [Hx _] _]; [contradiction |].
      destruct rest; simpl; destruct x; try contradiction; discriminate. }
    destruct (String.eqb_spec (Join data (String c "")) ""); [contradiction |].
    rewrite Split_Join.
    + apply trimmedPieces_fixed. eapply Forall_impl; [| exact Hd].
      intros x (Hx & Ht & _). auto.
    + exact Hne.
    + eapply Forall_impl; [| exact Hd].
      intros x (_ & _ & Hc). apply Hc. left. reflexivity.
Qed.

(** X23: a collection that holds the item also holds it up to case, as
    long as [strings.EqualFold] holds between a string and itself. *)
Theorem ContainsStrings_ContainsStringsCI (coll : list string) (item : string) :
  (forall s, EqualFold s s = true) ->
  ContainsStrings coll item = true ->
  ContainsStringsCI EqualFold coll item = true.
Proof.
  intros Hrefl Hc. unfold ContainsStrings in Hc.
  apply existsb_exists in Hc. destruct Hc as (a & Ha & Heq).
  apply String.eqb_eq in Heq. subst a.
  unfold ContainsStringsCI. apply existsb_exists.
  exists item. split; [exact Ha | apply Hrefl].
Qed.

End StringsMore.


(** ** Instances *)

Lemma yamlNode_document_value_witness :
  @yamlNode exampleLibraries duplicateDocument
  = Ok (AJSONMapSlice [mkItem "a" (AInt Int64 1); mkItem "a" (AInt Int64 2)])
  /\ isDocumentValue
       (AJSONMapSlice [mkItem "a" (AInt Int64 1); mkItem "a" (AInt Int64 2)])
     = true.
Proof.
  split; [reflexivity |].
  apply (@yamlNode_document_value exampleLibraries duplicateDocument).
  reflexivity.
Defined.

Lemma yamlSequence_in_order_witness :
  @yamlSequence exampleLibraries
    (collectionNode yaml.SequenceNode
       [scalar yamlStringScalar "x"; scalar yamlIntScalar "2"])
  = Ok (ASlice [AString "x"; AInt Int64 2]).
Proof.
  destruct (@yamlSequence_in_order exampleLibraries
              (collectionNode yaml.SequenceNode
                 [scalar yamlStringScalar "x"; scalar yamlIntScalar "2"]))
    as [Hiff _].
  apply Hiff. exists [AString "x"; AInt Int64 2].
  split; [repeat constructor | reflexivity].
Defined.

Lemma yamlScalar_by_tag_witness :
  @LongTag exampleLibraries (scalar yamlNull "false") = yamlNull
  /\ @yamlScalar exampleLibraries (scalar yamlNull "false") = Ok Nil.
Proof.
  split; [reflexivity |].
  destruct (@yamlScalar_by_tag exampleLibraries (scalar yamlNull "false"))
    as [Hnull _].
  apply Hnull. reflexivity.
Defined.

Lemma json2yaml_slice_in_order_witness :
  @json2yaml exampleLibraries (ASlice [AString "x"; ABool true])
  = Ok (collectionNode yaml.SequenceNode
          [scalar yamlStringScalar "x"; scalar yamlBoolScalar "true"]).
Proof.
  apply (@json2yaml_slice_in_order exampleLibraries).
  exists [scalar yamlStringScalar "x"; scalar yamlBoolScalar "true"].
  split; [repeat constructor | reflexivity].
Defined.

Lemma MarshalYAML_stored_order_witness :
  Forall2 (fun it c => @json2yaml exampleLibraries (Value it) = Ok c)
          [mkItem "b" (AString "x"); mkItem "a" (AInt Int64 1)]
          [scalar yamlStringScalar "x"; scalar yamlIntScalar "1"]
  /\ @MarshalYAML exampleLibraries
       [mkItem "b" (AString "x"); mkItem "a" (AInt Int64 1)]
     = @yaml_Marshal exampleLibraries
         (collectionNode yaml.DocumentNode
            [collectionNode yaml.MappingNode
               [scalar yamlStringScalar "b"; scalar yamlStringScalar "x";
                scalar yamlStringScalar "a"; scalar yamlIntScalar "1"]]).
Proof.
  assert (HF : Forall2 (fun it c => @json2yaml exampleLibraries (Value it) = Ok c)
                       [mkItem "b" (AString "x"); mkItem "a" (AInt Int64 1)]
                       [scalar yamlStringScalar "x"; scalar yamlIntScalar "1"])
    by (repeat constructor).
  split; [exact HF |].
  destruct (@MarshalYAML_stored_order exampleLibraries
              [mkItem "b" (AString "x"); mkItem "a" (AInt Int64 1)])
    as [Hok _].
  exact (Hok _ HF).
Defined.



Lemma transformData_idempotent_witness :
  @transformData exampleLibraries
    (ASlice [AGenMap [(AInt Int8 7, AString "x")]; ANode duplicateMapping])
  = Ok (ASlice [AJSONMapSlice [mkItem "7" (AString "x")];
                AJSONMapSlice [mkItem "a" (AInt Int64 1); mkItem "a" (AInt Int64 2)]])
  /\ @transformData exampleLibraries
       (ASlice [AJSONMapSlice [mkItem "7" (AString "x")];
                AJSONMapSlice [mkItem "a" (AInt Int64 1); mkItem "a" (AInt Int64 2)]])
     = Ok (ASlice [AJSONMapSlice [mkItem "7" (AString "x")];
                   AJSONMapSlice [mkItem "a" (AInt Int64 1); mkItem "a" (AInt Int64 2)]]).
Proof.
  split; [reflexivity |].
  apply (@transformData_idempotent exampleLibraries
           (ASlice [AGenMap [(AInt Int8 7, AString "x")]; ANode duplicateMapping])).
  reflexivity.
Defined.

Lemma transformData_slice_in_order_witness :
  @transformData exampleLibraries (ASlice [AGenMap []; AString "x"])
  = Ok (ASlice [AJSONMapSlice []; AString "x"]).
Proof.
  destruct (@transformData_slice_in_order exampleLibraries
              [AGenMap []; AString "x"]) as [Hiff _].
  apply Hiff. exists [AJSONMapSlice []; AString "x"].
  split; [repeat constructor | reflexivity].
Defined.

Lemma transformData_of_parsed_document_witness :
  @BytesToYAMLDoc exampleLibraries [Byte.x61] = Ok (ANodePtr duplicateDocument)
  /\ exists document root,
      ANodePtr duplicateDocument = ANodePtr document
      /\ yaml.Content document = [root]
      /\ @transformData exampleLibraries (ANodePtr duplicateDocument)
         = @yamlMapping exampleLibraries root
      /\ forall r,
          @transformData exampleLibraries (ANodePtr duplicateDocument) = Ok r ->
          exists m, r = AJSONMapSlice m /\ isDocumentValue r = true.
Proof.
  split; [reflexivity |].
  apply (@transformData_of_parsed_document exampleLibraries [Byte.x61]).
  reflexivity.
Defined.

Lemma docOptionsWithDefaults_registered_witness :
  processors
    (docOptionsWithDefaults
       (map optionOf [XOrder false; Processor (logging "P1" true); XOrder true]))
  = [logging "P1" true; xOrderProcessor].
Proof.
  destruct (docOptionsWithDefaults_registered (list string)
              [XOrder false; Processor (logging "P1" true); XOrder true])
    as [Hp _].
  exact Hp.
Defined.

Lemma XOrder_twice_fails_witness :
  runs [logging "P1" true] (ANode duplicateDocument) [] (AString "P1") ["P1"]
  /\ acceptedByXOrder (ANodePtr duplicateDocument) = true
  /\ exists e,
      ApplyTransforms
        (mkDocOptions ([] ++ xOrderProcessor :: xOrderProcessor :: [logging "P3" true]))
        (ANodePtr duplicateDocument) ([] : list string)
      = ((Nil, Some e), []).
Proof.
  split; [eapply runs_cons; [reflexivity | apply runs_nil] |].
  split; [reflexivity |].
  eexists.
  apply (XOrder_twice_fails (list string) [] [logging "P3" true]
           (ANodePtr duplicateDocument) (ANodePtr duplicateDocument) [] []
           (runs_nil _ _) eq_refl).
Defined.

Lemma YAMLDoc_XOrder_null_witness :
  @BytesToYAMLDoc exampleLibraries [Byte.x61] = Ok (ANodePtr duplicateDocument)
  /\ @YAMLDoc exampleLibraries (fun _ => Ok [Byte.x61]) unit "spec.yaml"
       [WithXOrderProcessor true] tt
     = (Ok [LNull], tt).
Proof.
  split; [reflexivity |].
  apply (@YAMLDoc_XOrder_null exampleLibraries (fun _ => Ok [Byte.x61]) unit
           "spec.yaml" [Byte.x61] (ANodePtr duplicateDocument) tt eq_refl eq_refl).
Defined.

Lemma YAMLToJSON_keeps_order_witness :
  yaml.Content duplicateMapping
  = interleave [(scalar yamlStringScalar "a", scalar yamlIntScalar "1");
                (scalar yamlStringScalar "a", scalar yamlIntScalar "2")]
  /\ @YAMLToJSON exampleLibraries (ANodePtr duplicateMapping)
     = Ok [LDelim "{"; LString "a"; LSep ":"; LNumber (NumInt 1); LSep ",";
           LString "a"; LSep ":"; LNumber (NumInt 2); LDelim "}"].
Proof.
  split; [reflexivity |].
  destruct (@YAMLToJSON_keeps_order exampleLibraries duplicateMapping
              [(scalar yamlStringScalar "a", scalar yamlIntScalar "1");
               (scalar yamlStringScalar "a", scalar yamlIntScalar "2")]
              [AInt Int64 1; AInt Int64 2] eq_refl eq_refl) as [Ht _].
  - repeat constructor.
  - repeat constructor.
  - exact Ht.
Defined.

Lemma itemMarshalJSON_itemUnmarshalJSON_witness :
  isJSONScalar (Value (mkItem "a" (AString "x"))) = true
  /\ @itemUnmarshalJSON exampleLibraries (mkItem "" Nil)
       [LString "a"; LSep ":"; LString "x"]
     = Some (mkItem "a" (AString "x"), None).
Proof.
  split; [reflexivity |].
  destruct (@itemMarshalJSON_itemUnmarshalJSON exampleLibraries
              (mkItem "a" (AString "x")) (mkItem "" Nil) eq_refl) as [_ Hu].
  exact Hu.
Defined.

Lemma UnmarshalJSON_stops_after_nested_object_witness :
  Forall (fun it => isJSONScalar (Value it) = true) [mkItem "z" Nil]
  /\ Forall (fun it => isJSONScalar (Value it) = true) [mkItem "b" (ABool true)]
  /\ @UnmarshalJSON exampleLibraries []
       [LDelim "{"; LString "z"; LSep ":"; LNull; LSep ",";
        LString "a"; LSep ":";
        LDelim "{"; LString "b"; LSep ":"; LBool true; LDelim "}";
        LSep ","; LString "c"; LSep ":"; LString "x"; LDelim "}"]
     = Some ([mkItem "z" Nil; mkItem "a" (AJSONMapSlice [mkItem "b" (ABool true)])],
             None).
Proof.
  assert (H1 : Forall (fun it => isJSONScalar (Value it) = true) [mkItem "z" Nil])
    by (repeat constructor).
  assert (H2 : Forall (fun it => isJSONScalar (Value it) = true)
                      [mkItem "b" (ABool true)])
    by (repeat constructor).
  split; [exact H1 |]. split; [exact H2 |].
  exact (@UnmarshalJSON_stops_after_nested_object exampleLibraries []
           [mkItem "z" Nil] [mkItem "b" (ABool true)] "a"
           [LSep ","; LString "c"; LSep ":"; LString "x"; LDelim "}"] H1 H2).
Defined.

Lemma UnmarshalJSON_returns_witness :
  (forall l, (weight (snd (@unmarshalSliceItem exampleLibraries l)) <= weight l)%nat)
  /\ (exists s' err,
         @UnmarshalJSON exampleLibraries [] [LDelim "{"; LString "k"] = Some (s', err))
  /\ (exists it' err,
         @itemUnmarshalJSON exampleLibraries (mkItem "" Nil) [LDelim "{"; LString "k"]
         = Some (it', err)).
Proof.
  assert (Hs : forall l,
             (weight (snd (@unmarshalSliceItem exampleLibraries l)) <= weight l)%nat)
    by (intros l; apply le_n).
  split; [exact Hs |].
  apply (@UnmarshalJSON_returns exampleLibraries [] (mkItem "" Nil)
           [LDelim "{"; LString "k"] Hs).
Defined.

Lemma YAMLMatcher_suffix_witness :
  YAMLMatcher "specs/petstore.v1.yml" = true.
Proof.
  apply YAMLMatcher_suffix. exists "specs/petstore.v1". right. reflexivity.
Defined.

Lemma ContainsStrings_In_witness :
  ContainsStrings ["a"; "b"] "b" = true.
Proof. apply ContainsStrings_In. right. left. reflexivity. Defined.

Lemma SplitByFormat_JoinByFormat_witness :
  separatorOf "pipes" = Some "|"
  /\ JoinByFormat ["a"; "b c"] "pipes" = ["a|b c"]
  /\ SplitByFormat noTrim "a|b c" "pipes" = ["a"; "b c"].
Proof.
  split; [reflexivity |].
  apply (SplitByFormat_JoinByFormat noTrim ["a"; "b c"] "pipes" "|" eq_refl).
  - discriminate.
  - repeat constructor; try discriminate;
      intros c [<- | []]; simpl; intuition discriminate.
Defined.

Lemma ContainsStrings_ContainsStringsCI_witness :
  (forall s, String.eqb s s = true)
  /\ ContainsStringsCI String.eqb ["a"; "b"] "b" = true.
Proof.
  split; [exact String.eqb_refl |].
  apply (ContainsStrings_ContainsStringsCI String.eqb ["a"; "b"] "b"
           String.eqb_refl).
  reflexivity.
Defined.

(** ** More examples *)

Example Ext_examples :
  Ext "a/b.c/d" = "" /\ Ext "x.tar.gz" = ".gz" /\ Ext ".yaml" = ".yaml"
  /\ Ext "a." = "." /\ Ext "" = "".
Proof. repeat split. Qed.

Example YAMLMatcher_examples :
  YAMLMatcher "petstore.yaml" = true /\ YAMLMatcher "petstore.json" = false
  /\ YAMLMatcher "yaml" = false /\ YAMLMatcher "dir.yml/file" = false.
Proof. repeat split. Qed.

Example Split_examples :
  Split "a,b,,c" "," = ["a"; "b"; ""; "c"] /\ Split "" "," = [""]
  /\ Split "abc" "," = ["abc"] /\ Split "a--b-c" "--" = ["a"; "b-c"].
Proof. repeat split. Qed.

Example JoinByFormat_examples :
  JoinByFormat ["a"; "b"] "ssv" = ["a b"] /\ JoinByFormat ["a"; "b"] "csv" = ["a,b"]
  /\ JoinByFormat ["a"; "b"] "multi" = ["a"; "b"] /\ JoinByFormat [] "ssv" = [].
Proof. repeat split. Qed.
